(** * Stellar-Evolution: the catalog cross-match and feature-derivation scripts

    A shallow embedding of
      - [src/process_gaia_data.py]          (feature deriver),
      - [src/crossmatch_gaia_sdss_debug.py] (catalog loader, radius search),
      - [src/crossmatch_gaia_sdss.py]       (nearest-neighbour cross-match),
    with Python floats as IEEE-754 binary64 values ([PrimFloat.float]),
    exceptions as an error type, and pandas tables as lists of records. *)

From Stdlib Require Import ZArith Lia List Bool String Arith PeanoNat.
From Stdlib Require Import Floats.
Import ListNotations.

Set Warnings "-inexact-float,-level-tolerance".

Local Open Scope string_scope.
Local Open Scope list_scope.
Local Open Scope nat_scope.

(* ================================================================== *)
(** ** Binary64 comparison and NaN propagation

    Python's [<], [<=], [==] on floats and the arithmetic operators are the
    IEEE-754 ones; their laws are derived here from the specification of the
    primitive operations ([FloatAxioms]). *)

Module F64.

Local Open Scope float_scope.

Lemma SFcompare_antisym (a b : spec_float) :
  SFcompare b a = option_map CompOpp (SFcompare a b).
Proof.
  destruct a as [sa|sa| |sa ma ea], b as [sb|sb| |sb mb eb]; simpl; try reflexivity;
    repeat match goal with s : bool |- _ => destruct s end; simpl; try reflexivity.
  all: rewrite (Z.compare_antisym ea eb);
       destruct (ea ?= eb)%Z; simpl; try reflexivity;
       rewrite (Pos.compare_cont_antisym ma mb Eq); simpl;
       rewrite ?CompOpp_involutive; reflexivity.
Qed.

Lemma SFleb_trans (a b c : spec_float) :
  SFleb a b = true -> SFleb b c = true -> SFleb a c = true.
Proof.
  unfold SFleb.
  destruct a as [sa|sa| |sa ma ea], b as [sb|sb| |sb mb eb], c as [sc|sc| |sc mc ec];
    simpl; try congruence;
    repeat match goal with s : bool |- _ => destruct s end; simpl; try congruence.
  all: destruct (Z.compare_spec ea eb), (Z.compare_spec eb ec), (Z.compare_spec ea ec);
       try congruence; try lia; subst.
  all: rewrite ?Pos.compare_cont_spec; simpl;
       destruct (Pos.compare_spec ma mb), (Pos.compare_spec mb mc), (Pos.compare_spec ma mc);
       simpl; try congruence; try lia.
Qed.

Lemma SFcompare_refl (a : spec_float) :
  a <> S754_nan -> SFcompare a a = Some Eq.
Proof.
  destruct a as [s|s| |s m e]; simpl; try congruence; intros _.
  - destruct s; reflexivity.
  - rewrite Z.compare_refl, Pos.compare_cont_refl. destruct s; reflexivity.
Qed.

(** [x <= y] and [y <= z] give [x <= z]; a NaN operand makes a premise false. *)
Lemma leb_trans (x y z : float) :
  (x <=? y) = true -> (y <=? z) = true -> (x <=? z) = true.
Proof. rewrite !leb_spec. apply SFleb_trans. Qed.

Lemma SFltb_leb_trans (a b c : spec_float) :
  SFltb a b = true -> SFleb b c = true -> SFltb a c = true.
Proof.
  unfold SFleb, SFltb.
  destruct a as [sa|sa| |sa ma ea], b as [sb|sb| |sb mb eb], c as [sc|sc| |sc mc ec];
    simpl; try congruence;
    repeat match goal with s : bool |- _ => destruct s end; simpl; try congruence.
  all: destruct (Z.compare_spec ea eb), (Z.compare_spec eb ec), (Z.compare_spec ea ec);
       try congruence; try lia; subst.
  all: rewrite ?Pos.compare_cont_spec; simpl;
       destruct (Pos.compare_spec ma mb), (Pos.compare_spec mb mc), (Pos.compare_spec ma mc);
       simpl; try congruence; try lia.
Qed.

(** [x < y] and [y <= z] give [x < z]. *)
Lemma ltb_leb_trans (x y z : float) :
  (x <? y) = true -> (y <=? z) = true -> (x <? z) = true.
Proof. rewrite !ltb_spec, leb_spec. apply SFltb_leb_trans. Qed.

(** [y <= x] excludes [x < y]. *)
Lemma leb_ltb_false (x y : float) : (y <=? x) = true -> (x <? y) = false.
Proof.
  rewrite leb_spec, ltb_spec. unfold SFleb, SFltb.
  rewrite (SFcompare_antisym (Prim2SF y) (Prim2SF x)).
  destruct (SFcompare (Prim2SF y) (Prim2SF x)) as [[ | | ]|]; simpl; congruence.
Qed.

(** Away from NaN the order is total: either [x <= y] or [y < x]. *)
Lemma leb_total (x y : float) :
  is_nan x = false -> is_nan y = false -> (x <=? y) = true \/ (y <? x) = true.
Proof.
  unfold is_nan. rewrite !eqb_spec, leb_spec, ltb_spec.
  unfold SFeqb, SFleb, SFltb.
  rewrite (SFcompare_antisym (Prim2SF x) (Prim2SF y)).
  destruct (Prim2SF x) as [sx|sx| |sx mx ex] eqn:Ex,
           (Prim2SF y) as [sy|sy| |sy my ey] eqn:Ey; simpl; try discriminate;
    intros _ _;
    repeat match goal with s : bool |- _ => destruct s end; simpl; auto.
  all: destruct (ex ?= ey)%Z; simpl; auto;
       destruct (Pos.compare_cont Eq mx my); simpl; auto.
Qed.

(** Without NaN, a failed [x < y] test means [y <= x]. *)
Lemma ltb_false_leb (x y : float) :
  is_nan x = false -> is_nan y = false -> (x <? y) = false -> (y <=? x) = true.
Proof.
  intros Hx Hy H. destruct (leb_total y x Hy Hx) as [L|L]; congruence.
Qed.

(** [x < y] gives [x <= y]. *)
Lemma ltb_leb (x y : float) : (x <? y) = true -> (x <=? y) = true.
Proof.
  rewrite ltb_spec, leb_spec. unfold SFltb, SFleb.
  destruct (SFcompare (Prim2SF x) (Prim2SF y)) as [[ | | ]|]; congruence.
Qed.

Lemma leb_refl (x : float) : is_nan x = false -> (x <=? x) = true.
Proof.
  intros H. destruct (leb_total x x H H) as [L|L]; [exact L | now apply ltb_leb].
Qed.

(** The kernel has one NaN: every NaN is [nan]. *)
Lemma is_nan_eq (x : float) : is_nan x = true -> x = nan.
Proof.
  unfold is_nan. rewrite eqb_spec. unfold SFeqb. intros H.
  apply Prim2SF_inj. change (Prim2SF nan) with S754_nan.
  destruct (Prim2SF x) as [s|s| |s m e] eqn:E; [exfalso..|reflexivity|exfalso];
    rewrite SFcompare_refl in H by discriminate; discriminate.
Qed.

Lemma mul_nan_r (x : float) : x * nan = nan.
Proof.
  apply Prim2SF_inj. rewrite mul_spec. change (Prim2SF nan) with S754_nan.
  unfold SF64mul, SFmul. destruct (Prim2SF x); reflexivity.
Qed.

Lemma sub_nan_r (x : float) : x - nan = nan.
Proof.
  apply Prim2SF_inj. rewrite sub_spec. change (Prim2SF nan) with S754_nan.
  unfold SF64sub, SFsub. destruct (Prim2SF x); reflexivity.
Qed.

End F64.

(* ================================================================== *)
(** ** Python values, exceptions and pandas tables *)

(** The exceptions the scripts raise (or let escape from the libraries). *)
Inductive exn : Type :=
| FileNotFoundError (msg : string)
| ValueError (msg : string)
| TypeError (msg : string)
| RuntimeError (msg : string).

Inductive result (A : Type) : Type :=
| Ok (a : A)
| Raise (e : exn).

Arguments Ok {A} a.
Arguments Raise {A} e.

Definition bind {A B : Type} (m : result A) (k : A -> result B) : result B :=
  match m with
  | Ok a => k a
  | Raise e => Raise e
  end.

Declare Scope py_scope.
Delimit Scope py_scope with py.
Notation "x <- m ;; k" := (bind m (fun x => k))
  (at level 61, m at next level, right associativity) : py_scope.
Local Open Scope py_scope.

Fixpoint mapM {A B : Type} (f : A -> result B) (l : list A) : result (list B) :=
  match l with
  | [] => Ok []
  | x :: l' => y <- f x ;; ys <- mapM f l' ;; Ok (y :: ys)
  end.

(** A cell of a table read by [pd.read_csv]: a float64 (NaN for a missing
    entry) in a numeric column, a [str] in an object column. *)
Inductive value : Type :=
| VFloat (f : float)
| VStr (s : string).

(** One record of a table: column name to cell.  A table is the ordered list of
    its column names and the ordered list of its records; a cell that a record
    does not list is a missing value (NaN), as in pandas. *)
Definition Row : Type := list (string * value).

Record DataFrame : Type := mkDataFrame {
  columns : list string;
  rows : list Row
}.

Fixpoint row_get (r : Row) (c : string) : option value :=
  match r with
  | [] => None
  | (k, v) :: r' => if String.eqb k c then Some v else row_get r' c
  end.

Definition cell (r : Row) (c : string) : value :=
  match row_get r c with
  | Some v => v
  | None => VFloat nan
  end.

Fixpoint row_set (r : Row) (c : string) (v : value) : Row :=
  match r with
  | [] => [(c, v)]
  | (k, w) :: r' =>
      if String.eqb k c then (k, v) :: r' else (k, w) :: row_set r' c v
  end.

(** [c in df.columns] *)
Definition has_column (df : DataFrame) (c : string) : bool :=
  existsb (String.eqb c) (columns df).

Definition add_column (cols : list string) (c : string) : list string :=
  if existsb (String.eqb c) cols then cols else cols ++ [c].

(** Arithmetic and ordering on a cell: a [str] cell raises [TypeError]. *)
Definition as_float (v : value) : result float :=
  match v with
  | VFloat f => Ok f
  | VStr _ => Raise (TypeError "unsupported operand type(s): 'str'")
  end.

(** [pd.isna] on a cell. *)
Definition isna (v : value) : bool :=
  match v with
  | VFloat f => is_nan f
  | VStr _ => false
  end.

(** [df[col] = series], the series given element by element from the record it
    is aligned with. *)
Definition assign (col : string) (f : Row -> result value) (df : DataFrame)
  : result DataFrame :=
  rs <- mapM (fun r => v <- f r ;; Ok (row_set r col v)) (rows df) ;;
  Ok (mkDataFrame (add_column (columns df) col) rs).

(** [df[col] = array], an array of [len(df)] values. *)
Definition set_column (col : string) (vals : list value) (df : DataFrame) : DataFrame :=
  mkDataFrame (add_column (columns df) col)
              (map (fun rv => row_set (fst rv) col (snd rv)) (combine (rows df) vals)).

(** [x[mask]], boolean-mask selection. *)
Fixpoint select_mask {A : Type} (l : list A) (mask : list bool) : list A :=
  match l, mask with
  | x :: l', b :: mask' => if b then x :: select_mask l' mask' else select_mask l' mask'
  | _, _ => []
  end.

(** [df.dropna(subset=cols)] *)
Definition dropna (subset : list string) (df : DataFrame) : DataFrame :=
  mkDataFrame (columns df)
              (filter (fun r => negb (existsb (fun c => isna (cell r c)) subset)) (rows df)).

(* ================================================================== *)
(** ** [src/process_gaia_data.py] *)

Module ProcessGaia.

Local Open Scope float_scope.

Definition classify_star (teff : float) : string :=
  if teff <? 4000 then "cool_star"%string
  else if teff <? 6500 then "sun_like"%string
  else if teff <? 10000 then "hot_star"%string
  else "very_hot_star"%string.

Definition estimate_mass_from_teff (teff : float) : float :=
  if teff <? 4000 then 0.6
  else if teff <? 5500 then 0.9
  else if teff <? 7000 then 1.2
  else if teff <? 10000 then 2.0
  else if teff <? 15000 then 5.0
  else 10.0.

Definition estimate_evolution_probs (mass : float) : float * float * float :=
  if mass <? 8 then (0.98, 0.02, 0.0)
  else if mass <? 20 then (0.10, 0.75, 0.15)
  else (0.00, 0.10, 0.90).

(** The state of NumPy's global generator, as the sequence of unit-interval
    variates it is about to produce.  The script never seeds it, so a run may
    start from any state. *)
Definition RandomState : Type := nat -> float.

Definition unit_variates (rng : RandomState) : Prop :=
  forall i, (0 <=? rng i) = true /\ (rng i <? 1) = true.

(** [np.random.uniform(low, high, size=n)]: [low + (high - low) * u] for the
    next [n] variates [u]. *)
Definition np_random_uniform (rng : RandomState) (low high : float) (size : nat)
  : list float :=
  map (fun i => low + (high - low) * rng i) (seq 0 size).

(** [series.replace(0, np.nan)] on one element. *)
Definition replace_zero_nan (p : float) : float :=
  if p =? 0 then nan else p.

Definition required_cols : list string := ["ra"; "dec"; "phot_g_mean_mag"]%string.

Fixpoint check_required (cols : list string) (df : DataFrame) : result unit :=
  match cols with
  | [] => Ok tt
  | col :: cols' =>
      if has_column df col then check_required cols' df
      else Raise (ValueError ("Required column " ++ col ++ " not found in Gaia CSV."))
  end.

Section Deriver.

(** [np.log10], element by element; NumPy's implementation is not part of the
    repository. *)
Variable log10 : float -> float.

Definition num (r : Row) (c : string) : result float := as_float (cell r c).

(** "If Teff is missing, try fallback columns": a table without
    [teff_gspphot] gets one filled with uniform draws. *)
Definition fill_missing_teff (rng : RandomState) (df : DataFrame) : DataFrame :=
  if has_column df "teff_gspphot" then df
  else set_column "teff_gspphot"
         (map VFloat (np_random_uniform rng 3500 10000 (List.length (rows df)))) df.

(** "Clean dataset": [dropna] on Teff and G magnitude, then [df[teff > 0]]. *)
Definition clean_dataset (df : DataFrame) : result DataFrame :=
  let df := dropna ["teff_gspphot"; "phot_g_mean_mag"]%string df in
  mask <- mapM (fun r => t <- num r "teff_gspphot" ;; Ok (0 <? t)) (rows df) ;;
  Ok (mkDataFrame (columns df) (select_mask (rows df) mask)).

(** "Derived Features", "Classification" and "Evolution endpoint
    probabilities": the column assignments, in the order of the script. *)
Definition derive_features (df : DataFrame) : result DataFrame :=
  df <- assign "teff" (fun r => Ok (cell r "teff_gspphot")) df ;;
  df <- assign "log_teff" (fun r => t <- num r "teff" ;; Ok (VFloat (log10 t))) df ;;
  df <- assign "mass_est"
          (fun r => t <- num r "teff" ;; Ok (VFloat (estimate_mass_from_teff t))) df ;;
  df <- assign "log_mass" (fun r => m <- num r "mass_est" ;; Ok (VFloat (log10 m))) df ;;
  df <- (if has_column df "parallax" then
           df <- assign "distance_pc"
                   (fun r => p <- num r "parallax" ;;
                             Ok (VFloat (1000.0 / replace_zero_nan p))) df ;;
           assign "abs_mag_g"
             (fun r => g <- num r "phot_g_mean_mag" ;;
                       d <- num r "distance_pc" ;;
                       Ok (VFloat (g - 5 * log10 (d / 10)))) df
         else assign "abs_mag_g" (fun _ => Ok (VFloat nan)) df) ;;
  df <- assign "star_class"
          (fun r => t <- num r "teff" ;; Ok (VStr (classify_star t))) df ;;
  df <- assign "prob_white_dwarf"
          (fun r => m <- num r "mass_est" ;;
                    Ok (VFloat (fst (fst (estimate_evolution_probs m))))) df ;;
  df <- assign "prob_neutron_star"
          (fun r => m <- num r "mass_est" ;;
                    Ok (VFloat (snd (fst (estimate_evolution_probs m))))) df ;;
  df <- assign "prob_black_hole"
          (fun r => m <- num r "mass_est" ;;
                    Ok (VFloat (snd (estimate_evolution_probs m)))) df ;;
  Ok df.

(** [process_gaia_csv], from the table [pd.read_csv] returned to the table
    the function returns (and writes with [to_csv]); the progress messages it
    prints are left out. *)
Definition process_gaia_csv (rng : RandomState) (df : DataFrame) : result DataFrame :=
  _ <- check_required required_cols df ;;
  df <- clean_dataset (fill_missing_teff rng df) ;;
  derive_features df.

End Deriver.

End ProcessGaia.

(* ================================================================== *)
(** ** Files and sky coordinates, shared by the two cross-match scripts *)

(** What [pd.read_csv] returns for a path; [None] when there is no such file. *)
Definition FileSystem : Type := string -> option DataFrame.

(** A position (RA, Dec) in degrees, and a [SkyCoord] holding an array of them. *)
Definition SkyPoint : Type := (float * float)%type.
Definition SkyCoord : Type := list SkyPoint.

(** [SkyCoord(ra=df[ra_col].values * u.deg, dec=df[dec_col].values * u.deg)];
    a [str] column cannot be multiplied by a unit.  The positions are taken as
    they are: Astropy's own refusals (a declination outside [-90, 90], a
    table without records read from a CSV) are not part of the definition,
    which stands for the call on [valid_position]s. *)
Definition sky_coords (df : DataFrame) (ra_col dec_col : string) : result SkyCoord :=
  mapM (fun r => ra <- as_float (cell r ra_col) ;;
                 dec <- as_float (cell r dec_col) ;;
                 Ok (ra, dec)) (rows df).

(** [enumerate(l)]: every element with its position. *)
Definition enumerate {A : Type} (l : list A) : list (nat * A) :=
  combine (seq 0 (List.length l)) l.

(** The great-circle distance in arc-seconds along the celestial equator: for
    two positions of declination 0 (less than half a turn apart) the angular
    separation is the difference of their right ascensions. *)
Definition equatorial_separation (a b : SkyPoint) : float :=
  (abs (fst a - fst b) * 3600)%float.

(** The positions Astropy accepts: a finite right ascension and a declination
    from -90 to 90 degrees (so neither is NaN). *)
Definition valid_position (p : SkyPoint) : bool :=
  (is_finite (fst p) && (-90 <=? snd p) && (snd p <=? 90))%float.

(** A search radius in arc-seconds: an angle from 0 to half a turn.  Astropy
    searches by the chord [2 * sin(seplimit / 2)], so outside this range a
    limit does not act as the radius of a circle (a negative one acts like its
    absolute value). *)
Definition valid_radius (r : float) : bool :=
  ((0 <=? r) && (r <=? 648000))%float.

(* ================================================================== *)
(** ** [src/crossmatch_gaia_sdss_debug.py] *)

Module CrossmatchDebug.

Definition RA_CANDIDATES : list string := ["ra"; "RA"; "RAJ2000"; "ra_deg"; "ra_deg"].
Definition DEC_CANDIDATES : list string := ["dec"; "DEC"; "DEJ2000"; "dec_deg"; "dec_deg"].

(** [next((c for c in CANDIDATES if c in cols), None)], twice. *)
Definition find_ra_dec_cols (df : DataFrame) : option string * option string :=
  (find (has_column df) RA_CANDIDATES, find (has_column df) DEC_CANDIDATES).

Definition notnull (f : float) : bool := negb (is_nan f).

Section Loader.

(** The numeric reading of a [str] cell ([float(s)]); the parser belongs to
    Python and pandas. *)
Variable float_of_string : string -> option float.

(** [pd.to_numeric(series, errors='coerce')], one element. *)
Definition to_numeric_coerce (v : value) : float :=
  match v with
  | VFloat f => f
  | VStr s => match float_of_string s with
              | Some f => f
              | None => nan
              end
  end.

(** [series.astype(float)], one element. *)
Definition astype_float (v : value) : result value :=
  match v with
  | VFloat f => Ok (VFloat f)
  | VStr s => match float_of_string s with
              | Some f => Ok (VFloat f)
              | None => Raise (ValueError ("could not convert string to float: " ++ s))
              end
  end.

Definition load_table (fs : FileSystem) (path which : string)
  : result (DataFrame * string * string) :=
  match fs path with
  | None => Raise (FileNotFoundError (which ++ " file not found: " ++ path))
  | Some df =>
      match find_ra_dec_cols df with
      | (Some ra_col, Some dec_col) =>
          (* check for non-finite values in RA/DEC *)
          let mask_good :=
            map (fun r => notnull (to_numeric_coerce (cell r ra_col))
                          && notnull (to_numeric_coerce (cell r dec_col)))
                (rows df) in
          let bad_count := List.length (filter negb mask_good) in
          let df := if 0 <? bad_count
                    then mkDataFrame (columns df) (select_mask (rows df) mask_good)
                    else df in
          (* convert to float *)
          df <- assign ra_col (fun r => astype_float (cell r ra_col)) df ;;
          df <- assign dec_col (fun r => astype_float (cell r dec_col)) df ;;
          Ok (df, ra_col, dec_col)
      | _ =>
          Raise (ValueError
                   ("Could not find RA/DEC columns in " ++ which ++
                    ". Tried ['ra', 'RA', 'RAJ2000', 'ra_deg', 'ra_deg'] & " ++
                    "['dec', 'DEC', 'DEJ2000', 'dec_deg', 'dec_deg']."))
      end
  end.

End Loader.

Section Search.

(** Astropy's on-sky separation of two positions, in arc-seconds. *)
Variable separation : SkyPoint -> SkyPoint -> float.

(** [astropy.coordinates.search_around_sky(coords1, coords2, seplimit)]: every
    pair of a position of [coords1] and one of [coords2] no farther apart than
    [seplimit], as (index into [coords1], index into [coords2], separation).
    This is the call's contract for [valid_position]s and a [valid_radius]. *)
Definition search_around_sky (coords1 coords2 : SkyCoord) (seplimit : float)
  : list (nat * nat * float) :=
  flat_map (fun ip =>
              filter (fun t => (snd t <=? seplimit)%float)
                     (map (fun jq => (fst ip, fst jq, separation (snd ip) (snd jq)))
                          (enumerate coords2)))
           (enumerate coords1).

(** The method [self.search_around_sky(searcharoundcoords, seplimit)]: Astropy
    defines it as [search_around_sky(searcharoundcoords, self, seplimit)], so
    the first index array it returns points into [searcharoundcoords] and the
    second into [self]. *)
Definition SkyCoord_search_around_sky (self searcharoundcoords : SkyCoord)
           (seplimit : float) : list (nat * nat * float) :=
  search_around_sky searcharoundcoords self seplimit.

(** One row of [df_matches]: the three columns the search fills.  The catalog
    columns that the two [merge] calls join to them are left out. *)
Record MatchRow : Type := mkMatchRow {
  idx_gaia : nat;
  idx_sdss : nat;
  sep_arcsec : float
}.

(** An entry of [result_details]. *)
Inductive details : Type :=
| NoPairs                                  (* {'count': 0} *)
| Pairs (count_pairs unique_gaia unique_sdss : nat) (matches_df : list MatchRow).

(** [info.get('count_pairs', 0)] and [info.get('unique_gaia', 0)] *)
Definition get_count_pairs (info : details) : nat :=
  match info with NoPairs => 0 | Pairs n _ _ _ => n end.
Definition get_unique_gaia (info : details) : nat :=
  match info with NoPairs => 0 | Pairs _ g _ _ => g end.

(** [d[k] = v] on a dict with float keys, in insertion order: an equal key
    keeps its place and takes the new value. *)
Fixpoint dict_set (d : list (float * details)) (k : float) (v : details)
  : list (float * details) :=
  match d with
  | [] => [(k, v)]
  | (k', v') :: d' =>
      if (k' =? k)%float then (k', v) :: d' else (k', v') :: dict_set d' k v
  end.

(** [series.nunique()] on a column of indices. *)
Definition nunique (l : list nat) : nat := List.length (nodup Nat.eq_dec l).

(** The diagnostics [run_crossmatch] prints about the radius search. *)
Inductive line : Type :=
| Searching (r_arcsec : float)
| RawPairs (match_count : nat)
| UniqueMatched (unique_gaia unique_sdss : nat)
| NoMatchesFound
| RadiusSummary (r : float) (pair_matches unique_gaia : nat)
| BestRadiusChosen (best_radius : option float) (best_count pairs : nat).

Record LoopState : Type := mkLoopState {
  best_matches : option (list MatchRow);
  best_radius : option float;
  best_count : nat;
  result_details : list (float * details);
  printed : list line
}.

Definition initial_state : LoopState := mkLoopState None None 0 [] [].

(** The body of [for r_arcsec in radius_list_arcsec]; the source makes the
    same search call twice and keeps the second result. *)
Definition try_radius (c_gaia c_sdss : SkyCoord) (st : LoopState) (r_arcsec : float)
  : LoopState :=
  let found := SkyCoord_search_around_sky c_gaia c_sdss r_arcsec in
  let col_idx_gaia := map (fun t => fst (fst t)) found in
  let col_idx_sdss := map (fun t => snd (fst t)) found in
  let match_count := List.length col_idx_gaia in
  let out := printed st ++ [Searching r_arcsec; RawPairs match_count] in
  if match_count =? 0 then
    mkLoopState (best_matches st) (best_radius st) (best_count st)
                (dict_set (result_details st) r_arcsec NoPairs) out
  else
    let df_matches :=
      map (fun t => mkMatchRow (fst (fst t)) (snd (fst t)) (snd t)) found in
    let unique_gaia := nunique col_idx_gaia in
    let unique_sdss := nunique col_idx_sdss in
    let out := out ++ [UniqueMatched unique_gaia unique_sdss] in
    let det := dict_set (result_details st) r_arcsec
                        (Pairs match_count unique_gaia unique_sdss df_matches) in
    (* pick the radius with the largest number of unique Gaia matches *)
    if best_count st <? unique_gaia then
      mkLoopState (Some df_matches) (Some r_arcsec) unique_gaia det out
    else
      mkLoopState (best_matches st) (best_radius st) (best_count st) det out.

Definition search_radii (c_gaia c_sdss : SkyCoord) (radius_list_arcsec : list float)
  : LoopState :=
  fold_left (try_radius c_gaia c_sdss) radius_list_arcsec initial_state.

(** What a successful run returns and writes: the pair table, and the Gaia
    records whose position is in no pair ([gaia_unmatched.csv]). *)
Record Matched : Type := mkMatched {
  out_df : list MatchRow;
  gaia_unmatched : list Row
}.

Definition no_matches_message : string :=
  "No matches found between Gaia and SDSS. Check inputs, coordinate ranges and column names.".

(** The part of [run_crossmatch] after the loop. *)
Definition conclude (gaia : DataFrame) (st : LoopState) : list line * result Matched :=
  match best_matches st with
  | Some bm =>
      if best_count st =? 0 then
        (printed st ++ NoMatchesFound ::
           map (fun ri => RadiusSummary (fst ri) (get_count_pairs (snd ri))
                                        (get_unique_gaia (snd ri)))
               (result_details st),
         Raise (RuntimeError no_matches_message))
      else
        let matched_gaia_idxs := map idx_gaia bm in
        let unmatched :=
          filter (fun ir => negb (existsb (Nat.eqb (fst ir)) matched_gaia_idxs))
                 (enumerate (rows gaia)) in
        (printed st ++ [BestRadiusChosen (best_radius st) (best_count st) (List.length bm)],
         Ok (mkMatched bm (map snd unmatched)))
  | None =>
      (printed st ++ NoMatchesFound ::
         map (fun ri => RadiusSummary (fst ri) (get_count_pairs (snd ri))
                                      (get_unique_gaia (snd ri)))
             (result_details st),
       Raise (RuntimeError no_matches_message))
  end.

Variable float_of_string : string -> option float.

(** [run_crossmatch]: what it prints about the search, and what it returns or
    raises. *)
Definition run_crossmatch (fs : FileSystem) (gaia_csv sdss_csv : string)
           (radius_list_arcsec : list float) : list line * result Matched :=
  match load_table float_of_string fs gaia_csv "Gaia" with
  | Raise e => ([], Raise e)
  | Ok (gaia, gra, gdec) =>
      match load_table float_of_string fs sdss_csv "SDSS" with
      | Raise e => ([], Raise e)
      | Ok (sdss, sra, sdec) =>
          match sky_coords gaia gra gdec with
          | Raise e => ([], Raise e)
          | Ok c_gaia =>
              match sky_coords sdss sra sdec with
              | Raise e => ([], Raise e)
              | Ok c_sdss =>
                  conclude gaia (search_radii c_gaia c_sdss radius_list_arcsec)
              end
          end
      end
  end.

End Search.

End CrossmatchDebug.

(* ================================================================== *)
(** ** [src/crossmatch_gaia_sdss.py] *)

Module Crossmatch.

(** [repr] of a list of column names, as the error message formats it. *)
Definition repr_columns (cols : list string) : string :=
  ("[" ++ String.concat ", " (map (fun c => "'" ++ c ++ "'") cols) ++ "]")%string.

(** [df.add_prefix(p)] on one record and on the column names. *)
Definition add_prefix (p : string) (r : Row) : Row :=
  map (fun kv => ((p ++ fst kv)%string, snd kv)) r.

Definition read_csv (fs : FileSystem) (path : string) : result DataFrame :=
  match fs path with
  | Some df => Ok df
  | None => Raise (FileNotFoundError ("No such file or directory: '" ++ path ++ "'"))
  end.

(** "Require RA/DEC columns exist" *)
Definition require_ra_dec (df_name : string) (df : DataFrame) : result unit :=
  if has_column df "ra" && has_column df "dec" then Ok tt
  else Raise (ValueError (df_name ++ " table is missing ra/dec columns: found "
                          ++ repr_columns (columns df))).

Section Search.

(** Astropy's on-sky separation of two positions, in arc-seconds. *)
Variable separation : SkyPoint -> SkyPoint -> float.

(** The nearest position of a catalog to [g], scanning from position [i] with
    the best (index, separation) so far; the first of equally near positions
    is kept. *)
Fixpoint nearest_from (g : SkyPoint) (best : nat * float) (i : nat)
         (catalog : list SkyPoint) : nat * float :=
  match catalog with
  | [] => best
  | s :: rest =>
      let d := separation g s in
      if (d <? snd best)%float then nearest_from g (i, d) (S i) rest
      else nearest_from g best (S i) rest
  end.

(** [self.match_to_catalog_sky(catalog)]: for every position of [self], the
    index of its nearest neighbour in [catalog] and the separation to it.
    Astropy refuses an empty catalog.  This is the call's contract for
    catalogs of [valid_position]s. *)
Definition match_to_catalog_sky (self catalog : SkyCoord) : result (list (nat * float)) :=
  match catalog with
  | [] => Raise (ValueError
                   "The catalog for coordinate matching cannot be a scalar or length-0.")
  | s0 :: rest =>
      Ok (map (fun g => nearest_from g (0, separation g s0) 1 rest) self)
  end.

(** [crossmatch]: the joined table it returns (and writes with [to_csv]). *)
Definition crossmatch (fs : FileSystem) (gaia_csv sdss_csv : string)
           (radius_arcsec : float) : result DataFrame :=
  gaia <- read_csv fs gaia_csv ;;
  sdss <- read_csv fs sdss_csv ;;
  _ <- require_ra_dec "Gaia" gaia ;;
  _ <- require_ra_dec "SDSS" sdss ;;
  c_gaia <- sky_coords gaia "ra" "dec" ;;
  c_sdss <- sky_coords sdss "ra" "dec" ;;
  nn <- match_to_catalog_sky c_gaia c_sdss ;;
  let idx := map fst nn in
  let sep_arcsec := map snd nn in
  let match_mask := map (fun s => (s <=? radius_arcsec)%float) sep_arcsec in
  let matched_gaia := select_mask (rows gaia) match_mask in
  let matched_sdss := map (fun j => nth j (rows sdss) []) (select_mask idx match_mask) in
  Ok (mkDataFrame
        (map (String.append "gaia_") (columns gaia) ++
         map (String.append "sdss_") (columns sdss))
        (map (fun gs => add_prefix "gaia_" (fst gs) ++ add_prefix "sdss_" (snd gs))
             (combine matched_gaia matched_sdss))).

End Search.

End Crossmatch.

(* ================================================================== *)
(** * Properties *)

(** ** General facts: the error monad, records and column assignment *)

Lemma bind_Ok_inv {A B : Type} (m : result A) (k : A -> result B) (b : B) :
  bind m k = Ok b -> exists a, m = Ok a /\ k a = Ok b.
Proof. destruct m; simpl; intros H; [eauto | discriminate]. Qed.

Lemma mapM_Forall2 {A B : Type} (f : A -> result B) (l : list A) (l' : list B) :
  mapM f l = Ok l' -> Forall2 (fun x y => f x = Ok y) l l'.
Proof.
  revert l'. induction l as [|x l IH]; simpl; intros l' H.
  - injection H as <-. constructor.
  - apply bind_Ok_inv in H as (y & Hy & H).
    apply bind_Ok_inv in H as (ys & Hys & H).
    injection H as <-. constructor; auto.
Qed.

Lemma mapM_total {A B : Type} (f : A -> result B) (l : list A) :
  Forall (fun x => exists y, f x = Ok y) l -> exists l', mapM f l = Ok l'.
Proof.
  induction 1 as [|x l (y & Hy) _ (l' & Hl')]; simpl.
  - eauto.
  - rewrite Hy, Hl'. simpl. eauto.
Qed.

Lemma Forall2_compose {A B C : Type} (R : A -> B -> Prop) (S : B -> C -> Prop)
      (l1 : list A) (l2 : list B) (l3 : list C) :
  Forall2 R l1 l2 -> Forall2 S l2 l3 ->
  Forall2 (fun x z => exists y, R x y /\ S y z) l1 l3.
Proof.
  intros H. revert l3. induction H; intros l3 H3; inversion H3; subst; constructor; eauto.
Qed.

Lemma Forall2_weaken {A B : Type} (R S : A -> B -> Prop) (l : list A) (l' : list B) :
  (forall x y, R x y -> S x y) -> Forall2 R l l' -> Forall2 S l l'.
Proof. intros HRS H. induction H; constructor; auto. Qed.

Lemma Forall2_Forall_l {A B : Type} (R : A -> B -> Prop) (P : A -> Prop)
      (l : list A) (l' : list B) :
  Forall P l -> Forall2 R l l' -> Forall2 (fun x y => P x /\ R x y) l l'.
Proof. intros HP H. induction H; inversion HP; subst; constructor; auto. Qed.

Lemma Forall2_Forall_r {A B : Type} (R : A -> B -> Prop) (Q : B -> Prop)
      (l : list A) (l' : list B) :
  (forall x y, R x y -> Q y) -> Forall2 R l l' -> Forall Q l'.
Proof. intros HQ H. induction H; constructor; eauto. Qed.

Lemma select_mask_Forall {A : Type} (P : A -> bool -> Prop) (l : list A) (mask : list bool) :
  Forall2 P l mask -> Forall (fun x => In x l /\ P x true) (select_mask l mask).
Proof.
  induction 1 as [|x b l mask Hx _ IH]; simpl; [constructor|].
  assert (IH' : Forall (fun y => In y (x :: l) /\ P y true) (select_mask l mask)).
  { revert IH. apply Forall_impl. simpl. tauto. }
  destruct b; [constructor; simpl; auto | exact IH'].
Qed.

Lemma select_mask_length {A : Type} (l : list A) (mask : list bool) :
  List.length (select_mask l mask) <= List.length l.
Proof.
  revert mask. induction l as [|x l IH]; intros [|b mask]; simpl; try lia.
  specialize (IH mask). destruct b; simpl; lia.
Qed.

Lemma cell_set (r : Row) (c c' : string) (v : value) :
  cell (row_set r c v) c' = if String.eqb c c' then v else cell r c'.
Proof.
  unfold cell. induction r as [|[k w] r IH]; simpl.
  - destruct (String.eqb c c'); reflexivity.
  - destruct (String.eqb_spec k c) as [->|Hkc]; simpl.
    + destruct (String.eqb c c'); reflexivity.
    + destruct (String.eqb_spec k c') as [->|Hkc'].
      * destruct (String.eqb_spec c c') as [->|_]; [congruence | reflexivity].
      * exact IH.
Qed.

Lemma has_column_add (cols : list string) (c c' : string) :
  existsb (String.eqb c') (add_column cols c) =
  (String.eqb c' c || existsb (String.eqb c') cols)%bool.
Proof.
  unfold add_column. destruct (existsb (String.eqb c) cols) eqn:E.
  - destruct (String.eqb_spec c' c) as [->|_]; simpl; [now rewrite E | reflexivity].
  - rewrite existsb_app. simpl. rewrite orb_false_r. apply orb_comm.
Qed.

(** What one column assignment does to a record. *)
Definition assigned (col : string) (f : Row -> result value) (r r' : Row) : Prop :=
  exists v, f r = Ok v /\ r' = row_set r col v.

Lemma assign_inv (col : string) (f : Row -> result value) (df df' : DataFrame) :
  assign col f df = Ok df' ->
  columns df' = add_column (columns df) col /\
  Forall2 (assigned col f) (rows df) (rows df').
Proof.
  unfold assign. intros H. apply bind_Ok_inv in H as (rs & Hrs & H).
  injection H as <-. simpl. split; [reflexivity|].
  apply mapM_Forall2 in Hrs. revert Hrs. apply Forall2_weaken.
  intros r r' Hr. apply bind_Ok_inv in Hr as (v & Hv & Hr).
  injection Hr as <-. exists v. auto.
Qed.

(** An assignment whose element function succeeds on every record succeeds,
    and carries an invariant of the records along. *)
Lemma assign_step (col : string) (f : Row -> result value) (df : DataFrame)
      (P Q : Row -> Prop) :
  Forall P (rows df) ->
  (forall r, P r -> exists v, f r = Ok v /\ Q (row_set r col v)) ->
  exists df', assign col f df = Ok df' /\
              columns df' = add_column (columns df) col /\
              Forall Q (rows df').
Proof.
  intros HP Hf.
  destruct (mapM_total (fun r => v <- f r ;; Ok (row_set r col v)) (rows df)) as (rs & Hrs).
  - revert HP. apply Forall_impl. intros r Hr.
    destruct (Hf r Hr) as (v & Hv & _). rewrite Hv. simpl. eauto.
  - assert (E : assign col f df = Ok (mkDataFrame (add_column (columns df) col) rs)).
    { unfold assign. rewrite Hrs. reflexivity. }
    exists (mkDataFrame (add_column (columns df) col) rs).
    split; [exact E|]. split; [reflexivity|]. simpl.
    apply assign_inv in E as (_ & F). simpl in F.
    apply (Forall2_Forall_r (fun x y => P x /\ assigned col f x y) Q (rows df) rs);
      [|exact (Forall2_Forall_l _ _ _ _ HP F)].
    intros x y (Hx & v & Hv & ->).
    destruct (Hf x Hx) as (v' & Hv' & HQ). congruence.
Qed.

(** Records whose cells in the columns [cs] are floats. *)
Definition numeric_cells (cs : list string) (r : Row) : Prop :=
  forall c, In c cs -> exists f, cell r c = VFloat f.

Lemma numeric_set_float (cs : list string) (r : Row) (c : string) (x : float) :
  numeric_cells cs r -> numeric_cells (c :: cs) (row_set r c (VFloat x)).
Proof.
  intros H c' Hc'. rewrite cell_set.
  destruct (String.eqb_spec c c') as [->|Hne]; [eauto|].
  apply H. destruct Hc'; [contradiction | assumption].
Qed.

Lemma numeric_set_other (cs : list string) (r : Row) (c : string) (v : value) :
  numeric_cells cs r -> ~ In c cs -> numeric_cells cs (row_set r c v).
Proof.
  intros H Hc c' Hc'. rewrite cell_set.
  destruct (String.eqb_spec c c') as [->|Hne]; [contradiction | auto].
Qed.

Lemma numeric_incl (cs cs' : list string) (r : Row) :
  incl cs' cs -> numeric_cells cs r -> numeric_cells cs' r.
Proof. intros Hi H c Hc. auto. Qed.

(* ================================================================== *)
(** ** The feature deriver *)

Module DeriverFacts.
Import ProcessGaia.
Local Open Scope float_scope.
Local Arguments cell : simpl never.

(** Earlier tests of a cascade fail once a later threshold is reached. *)
Lemma below_false (x a b : float) :
  (a <=? b) = true -> (b <=? x) = true -> (x <? a) = false.
Proof. intros Hab Hbx. apply F64.leb_ltb_false. exact (F64.leb_trans _ _ _ Hab Hbx). Qed.

Lemma not_below_mono (x a b : float) :
  (a <=? b) = true -> (x <? b) = false -> (x <? a) = false.
Proof.
  intros Hab Hb. destruct (x <? a) eqn:E; [|reflexivity].
  rewrite (F64.ltb_leb_trans _ _ _ E Hab) in Hb. discriminate.
Qed.

Definition mass_values : list float := [0.6; 0.9; 1.2; 2.0; 5.0; 10.0].

Lemma estimate_mass_in_values (teff : float) :
  In (estimate_mass_from_teff teff) mass_values.
Proof.
  unfold estimate_mass_from_teff, mass_values.
  repeat match goal with |- context [if ?b then _ else _] => destruct b end;
    simpl; tauto.
Qed.

(** [|a + b + c - 1.0| <= 1e-9] *)
Definition sums_to_one (p : float * float * float) : bool :=
  abs (fst (fst p) + snd (fst p) + snd p - 1.0) <=? 1e-9.

Lemma evolution_probs_sum (mass : float) :
  sums_to_one (estimate_evolution_probs mass) = true.
Proof.
  unfold estimate_evolution_probs.
  destruct (mass <? 8); [|destruct (mass <? 20)]; reflexivity.
Qed.

(** The columns the deriver writes. *)
Definition derived_columns : list string :=
  ["teff"; "log_teff"; "mass_est"; "log_mass"; "distance_pc"; "abs_mag_g";
   "star_class"; "prob_white_dwarf"; "prob_neutron_star"; "prob_black_hole"]%string.

Ltac not_in :=
  let Hin := fresh "Hin" in
  simpl; intros Hin;
  repeat (destruct Hin as [Hin|Hin]; [discriminate Hin|]); contradiction.

(** The test of the cleaning step on one record: temperature and G magnitude
    not missing, and a positive temperature. *)
Definition passes_cleaning (r : Row) : bool :=
  negb (isna (cell r "teff_gspphot") || isna (cell r "phot_g_mean_mag")) &&
  match cell r "teff_gspphot" with
  | VFloat t => 0 <? t
  | VStr _ => false
  end.

Lemma select_mask_filter {A : Type} (q : A -> bool) (l : list A) (mask : list bool) :
  Forall2 (fun x b => q x = b) l mask -> select_mask l mask = filter q l.
Proof.
  induction 1 as [|x b l mask Hx _ IH]; simpl; [reflexivity|].
  rewrite Hx, IH. reflexivity.
Qed.

(** The cleaning step returns the records that pass its test, in order. *)
Lemma clean_dataset_filter (df df' : DataFrame) :
  clean_dataset df = Ok df' -> rows df' = filter passes_cleaning (rows df).
Proof.
  unfold clean_dataset. intros H. apply bind_Ok_inv in H as (mask & Hm & H).
  injection H as <-. apply mapM_Forall2 in Hm. cbn [rows dropna] in *.
  assert (Hq : Forall2 (fun r b => match cell r "teff_gspphot" with
                                   | VFloat t => 0 <? t
                                   | VStr _ => false
                                   end = b)
                       (filter (fun r => negb (existsb (fun c => isna (cell r c))
                                                       ["teff_gspphot"; "phot_g_mean_mag"]%string))
                               (rows df)) mask).
  { revert Hm. apply Forall2_weaken. intros r b Hr. unfold num in Hr.
    destruct (cell r "teff_gspphot"); simpl in Hr; [|discriminate].
    now injection Hr as <-. }
  etransitivity; [exact (select_mask_filter _ _ _ Hq)|]. clear Hq Hm.
  induction (rows df) as [|r l IH]; [reflexivity|].
  cbn [filter]. rewrite <- IH. clear IH.
  unfold passes_cleaning. cbn [existsb]. rewrite orb_false_r.
  destruct (negb (isna (cell r "teff_gspphot") || isna (cell r "phot_g_mean_mag")));
    reflexivity.
Qed.

Section Deriver.
Variable log10 : float -> float.

(** The record [r'] the deriver makes of a cleaned record [r]; [hp] tells
    whether the table has a [parallax] column. *)
Definition derived (hp : bool) (r r' : Row) : Prop :=
  exists teff,
    cell r "teff_gspphot" = VFloat teff /\
    cell r' "teff" = VFloat teff /\
    cell r' "log_teff" = VFloat (log10 teff) /\
    cell r' "mass_est" = VFloat (estimate_mass_from_teff teff) /\
    cell r' "log_mass" = VFloat (log10 (estimate_mass_from_teff teff)) /\
    cell r' "star_class" = VStr (classify_star teff) /\
    (cell r' "prob_white_dwarf", cell r' "prob_neutron_star", cell r' "prob_black_hole") =
      (let p := estimate_evolution_probs (estimate_mass_from_teff teff) in
       (VFloat (fst (fst p)), VFloat (snd (fst p)), VFloat (snd p))) /\
    (forall c, ~ In c derived_columns -> cell r' c = cell r c) /\
    if hp then
      exists g p,
        cell r "phot_g_mean_mag" = VFloat g /\
        cell r "parallax" = VFloat p /\
        cell r' "distance_pc" = VFloat (1000.0 / replace_zero_nan p) /\
        cell r' "abs_mag_g" =
          VFloat (g - 5 * log10 ((1000.0 / replace_zero_nan p) / 10))
    else cell r' "abs_mag_g" = VFloat nan.

Ltac invert_assigns :=
  repeat match goal with
         | H : exists _, _ |- _ => destruct H
         | H : _ /\ _ |- _ => destruct H
         | H : assigned _ _ _ _ |- _ => destruct H as (? & ? & ?)
         end; subst.

Ltac read_cells :=
  unfold num in *;
  repeat (rewrite ?cell_set in *; simpl String.eqb in *; cbv iota in * );
  repeat match goal with
         | H : bind (as_float ?v) _ = Ok _ |- _ =>
             destruct v eqn:?; simpl in H; [|discriminate]
         | H : Ok _ = Ok _ |- _ => injection H as H; subst
         | H : VFloat _ = VFloat _ |- _ => injection H as H; subst
         end.

Ltac untouched :=
  let c := fresh "c" in
  let Hc := fresh "Hc" in
  intros c Hc; rewrite !cell_set;
  repeat match goal with
         | |- context [String.eqb ?a c] =>
             destruct (String.eqb_spec a c) as [<-|_];
             [exfalso; apply Hc; unfold derived_columns; simpl; tauto|]
         end;
  reflexivity.

Ltac close_cells := first [eassumption | reflexivity | untouched].

Lemma derive_features_rows (df out : DataFrame) :
  derive_features log10 df = Ok out ->
  Forall2 (derived (has_column df "parallax")) (rows df) (rows out).
Proof.
  unfold derive_features. intros H.
  apply bind_Ok_inv in H as (d1 & H1 & H). apply assign_inv in H1 as (C1 & F1).
  apply bind_Ok_inv in H as (d2 & H2 & H). apply assign_inv in H2 as (C2 & F2).
  apply bind_Ok_inv in H as (d3 & H3 & H). apply assign_inv in H3 as (C3 & F3).
  apply bind_Ok_inv in H as (d4 & H4 & H). apply assign_inv in H4 as (C4 & F4).
  apply bind_Ok_inv in H as (d5 & H5 & H).
  apply bind_Ok_inv in H as (d6 & H6 & H). apply assign_inv in H6 as (C6 & F6).
  apply bind_Ok_inv in H as (d7 & H7 & H). apply assign_inv in H7 as (C7 & F7).
  apply bind_Ok_inv in H as (d8 & H8 & H). apply assign_inv in H8 as (C8 & F8).
  apply bind_Ok_inv in H as (d9 & H9 & H). apply assign_inv in H9 as (C9 & F9).
  injection H as <-.
  assert (HP : has_column d4 "parallax" = has_column df "parallax").
  { unfold has_column. rewrite C4, C3, C2, C1, !has_column_add. reflexivity. }
  rewrite HP in H5.
  pose proof (Forall2_compose _ _ _ _ _ (Forall2_compose _ _ _ _ _
                (Forall2_compose _ _ _ _ _ F1 F2) F3) F4) as F14.
  pose proof (Forall2_compose _ _ _ _ _ (Forall2_compose _ _ _ _ _
                (Forall2_compose _ _ _ _ _ F6 F7) F8) F9) as F69.
  destruct (has_column df "parallax").
  - apply bind_Ok_inv in H5 as (d5a & H5a & H5b).
    apply assign_inv in H5a as (C5a & F5a). apply assign_inv in H5b as (C5b & F5b).
    pose proof (Forall2_compose _ _ _ _ _ (Forall2_compose _ _ _ _ _
                  (Forall2_compose _ _ _ _ _ F14 F5a) F5b) F69) as F.
    revert F. apply Forall2_weaken. intros r r' Hr. unfold derived.
    invert_assigns. read_cells.
    eexists. repeat split; try close_cells.
    do 2 eexists. repeat split; close_cells.
  - apply assign_inv in H5 as (C5 & F5).
    pose proof (Forall2_compose _ _ _ _ _ (Forall2_compose _ _ _ _ _ F14 F5) F69) as F.
    revert F. apply Forall2_weaken. intros r r' Hr. unfold derived.
    invert_assigns. read_cells.
    eexists. repeat split; close_cells.
Qed.

(** The cleaning step keeps records of the table, each with a positive,
    non-missing temperature. *)
Definition clean_record (r : Row) : Prop :=
  exists t, cell r "teff_gspphot" = VFloat t /\ (0 <? t) = true.

Lemma clean_dataset_rows (df df' : DataFrame) :
  clean_dataset df = Ok df' ->
  columns df' = columns df /\
  Forall (fun r => In r (rows df) /\ clean_record r) (rows df').
Proof.
  unfold clean_dataset. intros H. apply bind_Ok_inv in H as (mask & Hm & H).
  injection H as <-. simpl. split; [reflexivity|].
  apply mapM_Forall2 in Hm. apply select_mask_Forall in Hm.
  revert Hm. apply Forall_impl. intros r (Hin & Hr).
  apply filter_In in Hin as (Hin & _). split; [exact Hin|].
  unfold num in Hr. destruct (cell r "teff_gspphot") as [t|s] eqn:E; simpl in Hr;
    [|discriminate].
  injection Hr as Hr. exists t. auto.
Qed.

Lemma fill_missing_teff_parallax (rng : RandomState) (df : DataFrame) :
  has_column (fill_missing_teff rng df) "parallax" = has_column df "parallax".
Proof.
  unfold fill_missing_teff. destruct (has_column df "teff_gspphot"); [reflexivity|].
  unfold has_column, set_column. cbn [columns]. rewrite has_column_add. reflexivity.
Qed.

(** Every record of the output is derived from a cleaned record of the
    (filled) input, in order. *)
Lemma process_gaia_csv_rows (rng : RandomState) (df out : DataFrame) :
  process_gaia_csv log10 rng df = Ok out ->
  exists cleaned,
    Forall (fun r => In r (rows (fill_missing_teff rng df)) /\ clean_record r) cleaned /\
    Forall2 (derived (has_column df "parallax")) cleaned (rows out).
Proof.
  unfold process_gaia_csv. intros H.
  apply bind_Ok_inv in H as (u & _ & H).
  apply bind_Ok_inv in H as (d & Hc & H).
  apply clean_dataset_rows in Hc as (Hcols & Hrows).
  apply derive_features_rows in H.
  exists (rows d). split; [exact Hrows|].
  replace (has_column df "parallax") with (has_column d "parallax"); [exact H|].
  unfold has_column at 1. rewrite Hcols. apply fill_missing_teff_parallax.
Qed.

(** The records of the output are derived, one for one and in order, from
    the records of the (filled) input that pass the cleaning. *)
Lemma process_gaia_csv_kept (rng : RandomState) (df out : DataFrame) :
  process_gaia_csv log10 rng df = Ok out ->
  Forall2 (derived (has_column df "parallax"))
          (filter passes_cleaning (rows (fill_missing_teff rng df))) (rows out).
Proof.
  unfold process_gaia_csv. intros H.
  apply bind_Ok_inv in H as (u & _ & H).
  apply bind_Ok_inv in H as (d & Hc & H).
  pose proof (clean_dataset_filter _ _ Hc) as Hrows.
  apply clean_dataset_rows in Hc as (Hcols & _).
  apply derive_features_rows in H. rewrite Hrows in H.
  replace (has_column df "parallax") with (has_column d "parallax"); [exact H|].
  unfold has_column at 1. rewrite Hcols. apply fill_missing_teff_parallax.
Qed.

Lemma process_gaia_csv_records (rng : RandomState) (df out : DataFrame) :
  process_gaia_csv log10 rng df = Ok out ->
  Forall (fun r' => exists r, clean_record r /\ derived (has_column df "parallax") r r')
         (rows out).
Proof.
  intros H. apply process_gaia_csv_rows in H as (cleaned & Hc & H).
  apply (Forall2_Forall_r (fun r r' => (In r (rows (fill_missing_teff rng df))
                                         /\ clean_record r)
                                        /\ derived (has_column df "parallax") r r')
                          _ cleaned (rows out)).
  - intros r r' ((_ & Hr) & Hd). eauto.
  - apply Forall2_Forall_l; assumption.
Qed.

(** *** The deriver completes on a numeric table *)

(** The columns the deriver reads. *)
Definition input_columns : list string :=
  ["teff_gspphot"; "phot_g_mean_mag"; "parallax"]%string.

Ltac reads Hr c :=
  let x := fresh "x" in
  let Hx := fresh "Hx" in
  destruct (Hr c%string ltac:(simpl; tauto)) as (x & Hx);
  unfold num; rewrite Hx; simpl.

Ltac run_assign d E C HQ Inv :=
  match goal with
  | [ HP : Forall ?P (rows ?d0) |- context [assign ?col ?f ?d0] ] =>
      destruct (assign_step col f d0 P Inv HP) as (d & E & C & HQ);
      [ | rewrite E; cbn [bind]; clear E HP ]
  end.

Lemma derive_features_total (df : DataFrame) :
  Forall (numeric_cells input_columns) (rows df) ->
  exists out, derive_features log10 df = Ok out.
Proof.
  intros H0. unfold derive_features.
  run_assign d1 E1 C1 H1 (numeric_cells ("teff"%string :: input_columns)).
  { intros r Hr. reads Hr "teff_gspphot". eexists; split; [reflexivity|].
    now apply numeric_set_float. }
  run_assign d2 E2 C2 H2 (numeric_cells ("teff"%string :: input_columns)).
  { intros r Hr. reads Hr "teff". eexists; split; [reflexivity|].
    apply numeric_set_other; [assumption | not_in]. }
  run_assign d3 E3 C3 H3
    (numeric_cells ("mass_est"%string :: "teff"%string :: input_columns)).
  { intros r Hr. reads Hr "teff". eexists; split; [reflexivity|].
    now apply numeric_set_float. }
  run_assign d4 E4 C4 H4
    (numeric_cells ("mass_est"%string :: "teff"%string :: input_columns)).
  { intros r Hr. reads Hr "mass_est". eexists; split; [reflexivity|].
    apply numeric_set_other; [assumption | not_in]. }
  assert (H5 : exists d5,
             (if has_column d4 "parallax" then
                df <- assign "distance_pc"
                        (fun r => p <- num r "parallax" ;;
                                  Ok (VFloat (1000.0 / replace_zero_nan p))) d4 ;;
                assign "abs_mag_g"
                  (fun r => g <- num r "phot_g_mean_mag" ;;
                            d <- num r "distance_pc" ;;
                            Ok (VFloat (g - 5 * log10 (d / 10)))) df
              else assign "abs_mag_g" (fun _ => Ok (VFloat nan)) d4) = Ok d5 /\
             Forall (numeric_cells ("mass_est"%string :: "teff"%string :: input_columns))
                    (rows d5)).
  { destruct (has_column d4 "parallax").
    - run_assign d5a E5a C5a H5a
        (numeric_cells ("distance_pc"%string :: "mass_est"%string :: "teff"%string
                          :: input_columns)).
      { intros r Hr. reads Hr "parallax". eexists; split; [reflexivity|].
        now apply numeric_set_float. }
      run_assign d5 E5 C5 H5
        (numeric_cells ("mass_est"%string :: "teff"%string :: input_columns)).
      { intros r Hr. reads Hr "phot_g_mean_mag". reads Hr "distance_pc".
        eexists; split; [reflexivity|].
        apply numeric_set_other; [|not_in].
        revert Hr. apply numeric_incl. intros c Hc. right. exact Hc. }
      eauto.
    - run_assign d5 E5 C5 H5
        (numeric_cells ("mass_est"%string :: "teff"%string :: input_columns)).
      { intros r Hr. eexists; split; [reflexivity|].
        apply numeric_set_other; [assumption | not_in]. }
      eauto. }
  destruct H5 as (d5 & E5 & H5). rewrite E5. cbn [bind]. clear E5 H4.
  run_assign d6 E6 C6 H6
    (numeric_cells ("mass_est"%string :: "teff"%string :: input_columns)).
  { intros r Hr. reads Hr "teff". eexists; split; [reflexivity|].
    apply numeric_set_other; [assumption | not_in]. }
  run_assign d7 E7 C7 H7
    (numeric_cells ("mass_est"%string :: "teff"%string :: input_columns)).
  { intros r Hr. reads Hr "mass_est". eexists; split; [reflexivity|].
    apply numeric_set_other; [assumption | not_in]. }
  run_assign d8 E8 C8 H8
    (numeric_cells ("mass_est"%string :: "teff"%string :: input_columns)).
  { intros r Hr. reads Hr "mass_est". eexists; split; [reflexivity|].
    apply numeric_set_other; [assumption | not_in]. }
  run_assign d9 E9 C9 H9
    (numeric_cells ("mass_est"%string :: "teff"%string :: input_columns)).
  { intros r Hr. reads Hr "mass_est". eexists; split; [reflexivity|].
    apply numeric_set_other; [assumption | not_in]. }
  eauto.
Qed.

Lemma fill_missing_teff_numeric (rng : RandomState) (df : DataFrame) :
  Forall (numeric_cells input_columns) (rows df) ->
  Forall (numeric_cells input_columns) (rows (fill_missing_teff rng df)).
Proof.
  intros H. unfold fill_missing_teff.
  destruct (has_column df "teff_gspphot"); [exact H|].
  unfold set_column. cbn [rows]. apply Forall_forall. intros r' Hr'.
  apply in_map_iff in Hr' as ((r & v) & <- & Hin). cbn [fst snd].
  assert (Hr : In r (rows df)) by exact (in_combine_l _ _ _ _ Hin).
  apply in_combine_r, in_map_iff in Hin as (x & <- & _).
  rewrite Forall_forall in H.
  apply (numeric_incl ("teff_gspphot"%string :: input_columns));
    [intros c Hc; right; exact Hc|].
  apply numeric_set_float. auto.
Qed.

Lemma clean_dataset_total (df : DataFrame) :
  Forall (numeric_cells input_columns) (rows df) ->
  exists df', clean_dataset df = Ok df' /\
              Forall (numeric_cells input_columns) (rows df').
Proof.
  intros H. unfold clean_dataset.
  destruct (mapM_total (fun r => t <- num r "teff_gspphot" ;; Ok (0 <? t))
              (rows (dropna ["teff_gspphot"; "phot_g_mean_mag"]%string df)))
    as (mask & Hm).
  - apply Forall_forall. intros r Hr. cbn [dropna rows] in Hr.
    apply filter_In in Hr as (Hr & _). rewrite Forall_forall in H.
    pose proof (H r Hr) as Hn. reads Hn "teff_gspphot". eauto.
  - rewrite Hm. cbn [bind]. eexists; split; [reflexivity|]. cbn [rows].
    apply mapM_Forall2, select_mask_Forall in Hm.
    rewrite Forall_forall in *. intros r Hr. apply Hm in Hr as (Hr & _).
    cbn [dropna rows] in Hr. apply filter_In in Hr as (Hr & _). auto.
Qed.

Lemma process_gaia_csv_total (rng : RandomState) (df : DataFrame) :
  Forall (fun c => has_column df c = true) required_cols ->
  Forall (numeric_cells input_columns) (rows df) ->
  exists out, process_gaia_csv log10 rng df = Ok out.
Proof.
  intros Hreq Hnum. unfold process_gaia_csv.
  assert (Hc : check_required required_cols df = Ok tt).
  { revert Hreq. generalize required_cols. induction 1 as [|c cs Hc _ IH]; simpl.
    - reflexivity.
    - rewrite Hc. exact IH. }
  rewrite Hc. cbn [bind].
  destruct (clean_dataset_total _ (fill_missing_teff_numeric rng df Hnum))
    as (d & E & Hd).
  rewrite E. cbn [bind]. now apply derive_features_total.
Qed.

End Deriver.
(** *** An executable [log10], to run the deriver on examples

    NumPy's [log10] is not in the repository, so the statements below hold
    for any [log10]; this series evaluation (exponent from [frexp], mantissa
    by the [atanh] series) stands for it where a table is evaluated. *)

Definition float_of_Z (z : Z) : float :=
  match z with
  | Z0 => 0
  | Zpos _ => of_uint63 (Uint63.of_Z z)
  | Zneg p => - of_uint63 (Uint63.of_Z (Zpos p))
  end.

(** [1/odd + z2 * (1/(odd+2) + z2 * ...)], [n] terms. *)
Fixpoint atanh_terms (z2 : float) (odd : float) (n : nat) : float :=
  match n with
  | O => 0
  | S n' => 1 / odd + z2 * atanh_terms z2 (odd + 2) n'
  end.

Definition log10_series (x : float) : float :=
  if is_nan x then nan
  else if x <? 0 then nan
  else if x =? 0 then neg_infinity
  else if is_infinity x then infinity
  else
    let (m, e) := Z.frexp x in
    let z := (m - 1) / (m + 1) in
    (2 * z * atanh_terms (z * z) 1 24 + float_of_Z e * 0.6931471805599453)
    / 2.302585092994046.

(** A Gaia table with a parallax column: the Sun-like first record has
    parallax 0, the second a parallax of 10 mas. *)
Definition gaia_two_stars : DataFrame :=
  mkDataFrame
    ["ra"; "dec"; "phot_g_mean_mag"; "teff_gspphot"; "parallax"]%string
    [ [("ra", VFloat 180.0); ("dec", VFloat 0.0); ("phot_g_mean_mag", VFloat 12.5);
       ("teff_gspphot", VFloat 5772); ("parallax", VFloat 0)]%string;
      [("ra", VFloat 180.1); ("dec", VFloat 0.5); ("phot_g_mean_mag", VFloat 9.0);
       ("teff_gspphot", VFloat 16000); ("parallax", VFloat 10)]%string ].

(** The same table without temperatures. *)
Definition gaia_no_teff : DataFrame :=
  mkDataFrame
    ["ra"; "dec"; "phot_g_mean_mag"]%string
    [ [("ra", VFloat 180.0); ("dec", VFloat 0.0); ("phot_g_mean_mag", VFloat 12.5)]%string ].

(** Two generator states: one about to produce 0.0, the other 0.5. *)
Definition rng_low : RandomState := fun _ => 0.0.
Definition rng_mid : RandomState := fun _ => 0.5.

(** *** The claims about the deriver *)

(** C6. The mass estimate is the step function of temperature with the
    breakpoints 4000, 5500, 7000, 10000 and 15000 K and the values 0.6, 0.9,
    1.2, 2.0, 5.0 and, for every other temperature, 10.0 solar masses; equal
    temperatures get equal estimates. *)
Theorem mass_step_function (teff : float) :
  ((teff <? 4000) = true -> estimate_mass_from_teff teff = 0.6) /\
  ((4000 <=? teff) = true -> (teff <? 5500) = true ->
   estimate_mass_from_teff teff = 0.9) /\
  ((5500 <=? teff) = true -> (teff <? 7000) = true ->
   estimate_mass_from_teff teff = 1.2) /\
  ((7000 <=? teff) = true -> (teff <? 10000) = true ->
   estimate_mass_from_teff teff = 2.0) /\
  ((10000 <=? teff) = true -> (teff <? 15000) = true ->
   estimate_mass_from_teff teff = 5.0) /\
  ((teff <? 15000) = false -> estimate_mass_from_teff teff = 10.0) /\
  (forall teff', teff' = teff ->
   estimate_mass_from_teff teff' = estimate_mass_from_teff teff).
Proof.
  unfold estimate_mass_from_teff. repeat split.
  - intros ->. reflexivity.
  - intros L H. rewrite (F64.leb_ltb_false _ _ L), H. reflexivity.
  - intros L H.
    rewrite (below_false teff 4000 5500 eq_refl L), (F64.leb_ltb_false _ _ L), H.
    reflexivity.
  - intros L H.
    rewrite (below_false teff 4000 7000 eq_refl L),
            (below_false teff 5500 7000 eq_refl L),
            (F64.leb_ltb_false _ _ L), H.
    reflexivity.
  - intros L H.
    rewrite (below_false teff 4000 10000 eq_refl L),
            (below_false teff 5500 10000 eq_refl L),
            (below_false teff 7000 10000 eq_refl L),
            (F64.leb_ltb_false _ _ L), H.
    reflexivity.
  - intros H.
    rewrite (not_below_mono teff 4000 15000 eq_refl H),
            (not_below_mono teff 5500 15000 eq_refl H),
            (not_below_mono teff 7000 15000 eq_refl H),
            (not_below_mono teff 10000 15000 eq_refl H), H.
    reflexivity.
  - intros teff' ->. reflexivity.
Qed.

Lemma mass_step_function_witness :
  estimate_mass_from_teff 6000 = 1.2 /\ estimate_mass_from_teff nan = 10.0.
Proof.
  split.
  - apply (proj1 (proj2 (proj2 (mass_step_function 6000)))); reflexivity.
  - apply (proj1 (proj2 (proj2 (proj2 (proj2 (proj2 (mass_step_function nan)))))));
      reflexivity.
Defined.

(** C2. The deriver maps a mass below 8 to the probabilities (0.98, 0.02,
    0.00), a mass from 8 and below 20 to (0.10, 0.75, 0.15) and a mass from 20
    to (0.00, 0.10, 0.90), a mass of 25 among them.  Every record of the input
    that passes the cleaning has its record in the output, in the same order
    and with no other records: there [mass_est] is the estimate of the input
    record's temperature, and the three probability fields are the triple of
    that mass and sum to 1.0 within 1e-9.  On a table with the required
    columns and numbers in the columns read, the deriver returns. *)
Theorem evolution_probs_by_mass :
  (forall mass,
      ((mass <? 8) = true -> estimate_evolution_probs mass = (0.98, 0.02, 0.00)) /\
      ((8 <=? mass) = true -> (mass <? 20) = true ->
       estimate_evolution_probs mass = (0.10, 0.75, 0.15)) /\
      ((20 <=? mass) = true -> estimate_evolution_probs mass = (0.00, 0.10, 0.90)) /\
      sums_to_one (estimate_evolution_probs mass) = true) /\
  estimate_evolution_probs 25 = (0.00, 0.10, 0.90) /\
  (forall log10 rng df out,
      process_gaia_csv log10 rng df = Ok out ->
      Forall2 (fun r r' =>
                 exists teff mass p,
                   cell r "teff_gspphot" = VFloat teff /\
                   mass = estimate_mass_from_teff teff /\
                   cell r' "mass_est" = VFloat mass /\
                   p = estimate_evolution_probs mass /\
                   cell r' "prob_white_dwarf" = VFloat (fst (fst p)) /\
                   cell r' "prob_neutron_star" = VFloat (snd (fst p)) /\
                   cell r' "prob_black_hole" = VFloat (snd p) /\
                   sums_to_one p = true)
              (filter passes_cleaning (rows (fill_missing_teff rng df)))
              (rows out)) /\
  (forall log10 rng df,
      Forall (fun c => has_column df c = true) required_cols ->
      Forall (numeric_cells input_columns) (rows df) ->
      exists out, process_gaia_csv log10 rng df = Ok out).
Proof.
  split; [|split; [|split]].
  - intros mass. unfold estimate_evolution_probs. repeat split.
    + intros ->. reflexivity.
    + intros L H. rewrite (F64.leb_ltb_false _ _ L), H. reflexivity.
    + intros L.
      rewrite (below_false mass 8 20 eq_refl L), (F64.leb_ltb_false _ _ L).
      reflexivity.
    + apply evolution_probs_sum.
  - reflexivity.
  - intros log10 rng df out H.
    apply process_gaia_csv_kept in H. revert H. apply Forall2_weaken.
    intros r r' (teff & Ht & _ & _ & Hm & _ & _ & Hp & _).
    injection Hp as Hw Hn Hb.
    exists teff, (estimate_mass_from_teff teff),
           (estimate_evolution_probs (estimate_mass_from_teff teff)).
    repeat split; try assumption. apply evolution_probs_sum.
  - intros log10 rng df. apply process_gaia_csv_total.
Qed.

Lemma evolution_probs_by_mass_witness :
  exists out,
    process_gaia_csv log10_series rng_low gaia_two_stars = Ok out /\
    List.length (rows out) = 2%nat /\
    Forall2 (fun r r' =>
               exists teff mass p,
                 cell r "teff_gspphot" = VFloat teff /\
                 mass = estimate_mass_from_teff teff /\
                 cell r' "mass_est" = VFloat mass /\
                 p = estimate_evolution_probs mass /\
                 cell r' "prob_white_dwarf" = VFloat (fst (fst p)) /\
                 cell r' "prob_neutron_star" = VFloat (snd (fst p)) /\
                 cell r' "prob_black_hole" = VFloat (snd p) /\
                 sums_to_one p = true)
            (filter passes_cleaning (rows (fill_missing_teff rng_low gaia_two_stars)))
            (rows out).
Proof.
  eexists. split; [vm_compute; reflexivity|]. split; [reflexivity|].
  apply (proj1 (proj2 (proj2 evolution_probs_by_mass)) log10_series rng_low gaia_two_stars).
  vm_compute. reflexivity.
Defined.

(** C9. The deriver computes [mass_est] from the temperature by the step
    function, whatever columns the input has: in every record it returns,
    [mass_est] is one of 0.6, 0.9, 1.2, 2.0, 5.0, 10.0, so it is positive
    ([log_mass] is the logarithm of a positive number) and below 20; the
    bucket of masses from 20 is never taken and [prob_black_hole] is at most
    0.15. *)
Theorem mass_est_bounded :
  (forall teff,
      let m := estimate_mass_from_teff teff in
      In m mass_values /\ (0 <? m) = true /\ (m <? 20) = true /\
      (20 <=? m) = false /\
      estimate_evolution_probs m <> (0.00, 0.10, 0.90) /\
      (snd (estimate_evolution_probs m) <=? 0.15) = true) /\
  (forall log10 rng df out,
      process_gaia_csv log10 rng df = Ok out ->
      Forall (fun r' =>
                exists teff m bh,
                  cell r' "teff" = VFloat teff /\
                  m = estimate_mass_from_teff teff /\
                  cell r' "mass_est" = VFloat m /\
                  cell r' "log_mass" = VFloat (log10 m) /\
                  In m mass_values /\ (0 <? m) = true /\ (m <? 20) = true /\
                  cell r' "prob_black_hole" = VFloat bh /\
                  (bh <=? 0.15) = true)
             (rows out)).
Proof.
  assert (A : forall teff,
             let m := estimate_mass_from_teff teff in
             In m mass_values /\ (0 <? m) = true /\ (m <? 20) = true /\
             (20 <=? m) = false /\
             estimate_evolution_probs m <> (0.00, 0.10, 0.90) /\
             (snd (estimate_evolution_probs m) <=? 0.15) = true).
  { intros teff m. split; [apply estimate_mass_in_values|].
    subst m. unfold estimate_mass_from_teff.
    repeat match goal with |- context [if ?b then _ else _] => destruct b end;
      (repeat split; try reflexivity;
       intros E; apply (f_equal (fun p => snd p <? 0.5)) in E;
       vm_compute in E; discriminate). }
  split; [exact A|].
  intros log10 rng df out H.
  apply process_gaia_csv_records in H. revert H. apply Forall_impl.
  intros r' (r & _ & teff & _ & Ht & _ & Hm & Hl & _ & Hp & _).
  injection Hp as _ _ Hb.
  destruct (A teff) as (Hin & Hpos & Hlt & _ & _ & Hbh).
  exists teff, (estimate_mass_from_teff teff),
         (snd (estimate_evolution_probs (estimate_mass_from_teff teff))).
  repeat split; assumption.
Qed.

Lemma mass_est_bounded_witness :
  exists out,
    process_gaia_csv log10_series rng_low gaia_two_stars = Ok out /\
    Forall (fun r' =>
              exists teff m bh,
                cell r' "teff" = VFloat teff /\
                m = estimate_mass_from_teff teff /\
                cell r' "mass_est" = VFloat m /\
                cell r' "log_mass" = VFloat (log10_series m) /\
                In m mass_values /\ (0 <? m) = true /\ (m <? 20) = true /\
                cell r' "prob_black_hole" = VFloat bh /\
                (bh <=? 0.15) = true)
           (rows out).
Proof.
  eexists. split; [vm_compute; reflexivity|].
  apply (proj2 mass_est_bounded log10_series rng_low gaia_two_stars).
  vm_compute. reflexivity.
Defined.

(** What the output record [r'] holds for the absolute magnitude of the input
    record [r] when the table has a parallax column. *)
Definition abs_mag_derived (log10 : float -> float) (r r' : Row) : Prop :=
  exists g p,
    cell r "phot_g_mean_mag" = VFloat g /\
    cell r "parallax" = VFloat p /\
    ((p =? 0) = false ->
     cell r' "distance_pc" = VFloat (1000.0 / p) /\
     cell r' "abs_mag_g" = VFloat (g - 5 * log10 ((1000.0 / p) / 10))) /\
    ((p =? 0) = true ->
     cell r' "distance_pc" = VFloat nan /\
     cell r' "abs_mag_g" = VFloat nan).

(** C7. Every record of the input that passes the cleaning has its record in
    the output, in the same order and with no other records, whatever its
    parallax.  With a parallax column that record has [distance_pc = 1000 /
    parallax] and [abs_mag_g = phot_g_mean_mag - 5 * log10(distance_pc / 10)],
    and a null (NaN) distance and a null [abs_mag_g] when the parallax is
    zero; without the column [abs_mag_g] is null.  On a table that has the
    required columns and numbers in the columns it reads, the deriver
    returns normally. *)
Theorem abs_mag_from_parallax (log10 : float -> float) (rng : RandomState)
        (df : DataFrame) :
  log10 nan = nan ->
  (forall out,
      process_gaia_csv log10 rng df = Ok out ->
      Forall2 (fun r r' =>
                 if has_column df "parallax" then abs_mag_derived log10 r r'
                 else cell r' "abs_mag_g" = VFloat nan)
              (filter passes_cleaning (rows (fill_missing_teff rng df)))
              (rows out)) /\
  (Forall (fun c => has_column df c = true) required_cols ->
   Forall (numeric_cells input_columns) (rows df) ->
   exists out, process_gaia_csv log10 rng df = Ok out).
Proof.
  intros Hnan. split; [|apply process_gaia_csv_total].
  intros out H. apply process_gaia_csv_kept in H.
  destruct (has_column df "parallax"); revert H; apply Forall2_weaken.
  - intros r r' (teff & _ & _ & _ & _ & _ & _ & _ & _ & g & p & Hg & Hp & Hd & Ha).
    exists g, p. rewrite Hd, Ha. unfold replace_zero_nan.
    split; [exact Hg|]. split; [exact Hp|].
    split; intros Hz; rewrite Hz; split; try reflexivity.
    change (1000 / nan / 10) with nan. rewrite Hnan.
    now rewrite F64.mul_nan_r, F64.sub_nan_r.
  - intros r r' (teff & _ & _ & _ & _ & _ & _ & _ & _ & Ha). exact Ha.
Qed.

Lemma abs_mag_from_parallax_witness :
  log10_series nan = nan /\
  exists out,
    process_gaia_csv log10_series rng_low gaia_two_stars = Ok out /\
    List.length (rows out) = 2%nat /\
    Forall2 (abs_mag_derived log10_series)
            (filter passes_cleaning (rows (fill_missing_teff rng_low gaia_two_stars)))
            (rows out).
Proof.
  split; [reflexivity|].
  destruct (abs_mag_from_parallax log10_series rng_low gaia_two_stars eq_refl)
    as (Hrows & Htotal).
  destruct Htotal as (out & Hout).
  - repeat constructor.
  - repeat constructor;
      intros c Hc; simpl in Hc;
      repeat (destruct Hc as [<-|Hc]; [eexists; reflexivity|]); contradiction.
  - exists out. split; [exact Hout|].
    split; [rewrite <- (Forall2_length (Hrows out Hout)); reflexivity|].
    exact (Hrows out Hout).
Defined.

End DeriverFacts.

(* ================================================================== *)
(** ** The catalog loader and the radius search *)

Module CrossmatchFacts.
Import CrossmatchDebug.
Local Arguments cell : simpl never.

(** *** The loader *)

Section Loader.
Variable float_of_string : string -> option float.

(** After [astype(float)] a cell that passed the mask is its numeric reading. *)
Lemma astype_float_good (v w : value) :
  astype_float float_of_string v = Ok w ->
  w = VFloat (to_numeric_coerce float_of_string v).
Proof.
  destruct v as [f|s]; simpl.
  - now intros [= <-].
  - destruct (float_of_string s); [now intros [= <-] | discriminate].
Qed.

Lemma mask_all_good {A : Type} (l : list A) (mask : list bool) :
  List.length mask = List.length l ->
  List.length (filter negb mask) = 0 -> select_mask l mask = l.
Proof.
  revert mask. induction l as [|x l IH]; intros [|b mask]; simpl; try discriminate;
    try reflexivity.
  intros [= Hlen]. destruct b; simpl; [|discriminate].
  intros H. now rewrite IH.
Qed.

Lemma select_mask_map {A : Type} (p : A -> bool) (l : list A) :
  select_mask l (map p l) = filter p l.
Proof. induction l as [|x l IH]; simpl; [reflexivity|]. rewrite IH. reflexivity. Qed.

(** A record whose two position cells are floats, neither of them NaN. *)
Definition position_not_null (ra_col dec_col : string) (r : Row) : Prop :=
  exists ra dec,
    cell r ra_col = VFloat ra /\ cell r dec_col = VFloat dec /\
    is_nan ra = false /\ is_nan dec = false.

(** The loader returns only records whose RA and Dec are numbers and not NaN
    (a row that fails the numeric coercion is dropped). *)
Lemma load_table_not_null (fs : FileSystem) (path which : string)
      (df : DataFrame) (ra_col dec_col : string) :
  load_table float_of_string fs path which = Ok (df, ra_col, dec_col) ->
  Forall (position_not_null ra_col dec_col) (rows df).
Proof.
  unfold load_table. destruct (fs path) as [df0|]; [|discriminate].
  destruct (find_ra_dec_cols df0) as [[ra|] [dec|]]; try discriminate.
  set (good := fun r => (notnull (to_numeric_coerce float_of_string (cell r ra))
                         && notnull (to_numeric_coerce float_of_string (cell r dec)))%bool).
  intros H.
  apply bind_Ok_inv in H as (d1 & H1 & H). apply bind_Ok_inv in H as (d2 & H2 & H).
  injection H as <- <- <-.
  apply assign_inv in H1 as (_ & F1). apply assign_inv in H2 as (_ & F2).
  pose proof (Forall2_compose _ _ _ _ _ F1 F2) as F. clear F1 F2.
  match type of F with
  | Forall2 _ (rows ?d0) _ =>
      assert (G : Forall (fun r => good r = true) (rows d0))
  end.
  { destruct (0 <? _) eqn:E; cbn [rows].
    - fold good. rewrite select_mask_map. apply Forall_forall.
      intros r Hr. now apply filter_In in Hr.
    - apply Nat.ltb_ge in E. fold good in E. apply Forall_forall. intros r Hr.
      assert (Hall : filter good (rows df0) = rows df0).
      { rewrite <- select_mask_map. apply mask_all_good; [apply length_map | lia]. }
      rewrite <- Hall in Hr. now apply filter_In in Hr. }
  eapply Forall2_Forall_r; [|exact (Forall2_Forall_l _ _ _ _ G F)].
  cbv beta. intros r r' HR.
  destruct HR as (Hg & r1 & (v1 & Hv1 & ->) & (v2 & Hv2 & ->)).
  unfold good in Hg. apply andb_prop in Hg as (Hra & Hdec).
  unfold notnull in Hra, Hdec. apply negb_true_iff in Hra, Hdec.
  apply astype_float_good in Hv1. subst v1.
  rewrite cell_set in Hv2. unfold position_not_null. rewrite !cell_set.
  destruct (String.eqb_spec ra dec) as [->|Hne].
  - rewrite String.eqb_refl. apply astype_float_good in Hv2. subst v2.
    cbn [to_numeric_coerce]. eauto 6.
  - apply astype_float_good in Hv2. subst v2.
    destruct (String.eqb_spec dec ra) as [->|_]; [contradiction|].
    rewrite !String.eqb_refl. eauto 6.
Qed.

(** So the coordinates of a loaded table can always be built. *)
Lemma load_table_sky_coords (fs : FileSystem) (path which : string)
      (df : DataFrame) (ra_col dec_col : string) :
  load_table float_of_string fs path which = Ok (df, ra_col, dec_col) ->
  exists c, sky_coords df ra_col dec_col = Ok c.
Proof.
  intros H. apply load_table_not_null in H. unfold sky_coords.
  apply mapM_total. revert H. apply Forall_impl.
  intros r (ra & dec & -> & -> & _). simpl. eauto.
Qed.

End Loader.

(** A Gaia table whose first record has an infinite right ascension (the
    CSV field [inf]) and a file system holding it. *)
Definition gaia_infinite_ra : DataFrame :=
  mkDataFrame ["ra"; "dec"]
    [ [("ra", VFloat infinity); ("dec", VFloat 0.0)];
      [("ra", VFloat 180.0); ("dec", VFloat 0.0)] ].

Definition fs_infinite_ra : FileSystem :=
  fun path => if String.eqb path "data/raw/gaia_sample.csv"
              then Some gaia_infinite_ra else None.

(** C3 (the code departs from it). The loader's check keeps a record whose
    right ascension is infinite: the mask [notnull] only rejects NaN. *)
Theorem load_table_keeps_infinite_ra (float_of_string : string -> option float) :
  load_table float_of_string fs_infinite_ra "data/raw/gaia_sample.csv" "Gaia"
    = Ok (gaia_infinite_ra, "ra", "dec") /\
  (exists r, In r (rows gaia_infinite_ra) /\
             cell r "ra" = VFloat infinity /\ is_finite infinity = false).
Proof.
  split; [reflexivity|].
  eexists. split; [left; reflexivity|]. split; reflexivity.
Qed.

(** A table whose second record has an unreadable right ascension. *)
Definition gaia_bad_row : DataFrame :=
  mkDataFrame ["ra"; "dec"]
    [ [("ra", VStr "180.0"); ("dec", VFloat 0.0)];
      [("ra", VStr "n/a"); ("dec", VFloat 1.0)] ].

(** A parser that reads the one numeral of [gaia_bad_row]. *)
Definition parse_180 (s : string) : option float :=
  if String.eqb s "180.0" then Some 180.0%float else None.

(** Every record the loader returns has a float right ascension and a float
    declination, neither of them NaN: a row where the numeric coercion of
    RA or Dec fails is dropped. *)
Theorem loader_keeps_numeric_positions (float_of_string : string -> option float)
        (fs : FileSystem) (path which : string)
        (df : DataFrame) (ra_col dec_col : string) :
  load_table float_of_string fs path which = Ok (df, ra_col, dec_col) ->
  Forall (fun r => exists ra dec,
                     cell r ra_col = VFloat ra /\ cell r dec_col = VFloat dec /\
                     is_nan ra = false /\ is_nan dec = false)
         (rows df).
Proof. apply load_table_not_null. Qed.

Lemma loader_keeps_numeric_positions_witness :
  load_table parse_180 (fun _ => Some gaia_bad_row) "gaia.csv" "Gaia"
    = Ok (mkDataFrame ["ra"; "dec"] [ [("ra", VFloat 180.0); ("dec", VFloat 0.0)] ],
          "ra", "dec") /\
  Forall (fun r => exists ra dec,
                     cell r "ra" = VFloat ra /\ cell r "dec" = VFloat dec /\
                     is_nan ra = false /\ is_nan dec = false)
         [ [("ra", VFloat 180.0); ("dec", VFloat 0.0)] ].
Proof.
  split; [reflexivity|].
  exact (loader_keeps_numeric_positions parse_180 (fun _ => Some gaia_bad_row)
           "gaia.csv" "Gaia" _ "ra" "dec" eq_refl).
Defined.

(** *** The radius search *)

Lemma In_enumerate_from {A : Type} (l : list A) (start i : nat) (x : A) :
  In (i, x) (combine (seq start (List.length l)) l) <->
  start <= i /\ nth_error l (i - start) = Some x.
Proof.
  revert start. induction l as [|y l IH]; intros start; simpl.
  - split; [tauto|]. intros (_ & H). destruct (i - start); discriminate.
  - rewrite IH. split.
    + intros [[= <- <-]|(Hle & Hn)].
      * rewrite Nat.sub_diag. auto.
      * split; [lia|]. replace (i - start) with (S (i - S start)) by lia. exact Hn.
    + intros (Hle & Hn). destruct (i - start) as [|k] eqn:E.
      * left. injection Hn as <-. f_equal. lia.
      * right. split; [lia|]. replace (i - S start) with k by lia. exact Hn.
Qed.

Lemma In_enumerate {A : Type} (l : list A) (i : nat) (x : A) :
  In (i, x) (enumerate l) <-> nth_error l i = Some x.
Proof.
  unfold enumerate. rewrite In_enumerate_from, Nat.sub_0_r.
  split; [tauto | intros H; split; [lia | exact H]].
Qed.

Lemma filter_length_le {A : Type} (p q : A -> bool) (l : list A) :
  (forall x, p x = true -> q x = true) ->
  List.length (filter p l) <= List.length (filter q l).
Proof.
  intros Hpq. induction l as [|x l IH]; simpl; [lia|].
  destruct (p x) eqn:Ep.
  - rewrite (Hpq x Ep). simpl. lia.
  - destruct (q x); simpl; lia.
Qed.

Lemma map_fst_enumerate_from {A : Type} (l : list A) (start : nat) :
  map fst (combine (seq start (List.length l)) l) = seq start (List.length l).
Proof.
  revert start. induction l as [|x l IH]; intros start; simpl; [reflexivity|].
  now rewrite IH.
Qed.

Section Search.
Variable separation : SkyPoint -> SkyPoint -> float.


Lemma search_around_sky_spec (coords1 coords2 : SkyCoord) (r : float)
      (i j : nat) (s : float) :
  In (i, j, s) (search_around_sky separation coords1 coords2 r) <->
  exists p q,
    nth_error coords1 i = Some p /\ nth_error coords2 j = Some q /\
    s = separation p q /\ (s <=? r)%float = true.
Proof.
  unfold search_around_sky. rewrite in_flat_map. split.
  - intros ((i' & p) & Hi & H). apply filter_In in H as (H & Hs).
    apply in_map_iff in H as ((j' & q) & [= <- <- <-] & Hj).
    apply In_enumerate in Hi, Hj. exists p, q. auto.
  - intros (p & q & Hp & Hq & -> & Hs). exists (i, p).
    split; [now apply In_enumerate|]. apply filter_In. split; [|exact Hs].
    apply in_map_iff. exists (j, q). split; [reflexivity | now apply In_enumerate].
Qed.








End Search.


(** *** Which radius the loop keeps *)

Lemma nunique_nil : nunique [] = 0.
Proof. reflexivity. Qed.

Lemma nunique_pos (l : list nat) : l <> [] -> 0 < nunique l.
Proof.
  destruct l as [|x l]; [congruence|]. intros _. unfold nunique.
  assert (H : In x (nodup Nat.eq_dec (x :: l))) by (apply nodup_In; now left).
  destruct (nodup Nat.eq_dec (x :: l)); [destruct H | simpl; lia].
Qed.

Lemma list_max_In (l : list nat) (x : nat) : In x l -> x <= list_max l.
Proof.
  intros H. pose proof (proj1 (list_max_le l (list_max l)) (Nat.le_refl _)) as F.
  rewrite Forall_forall in F. auto.
Qed.

Section Selection.
Variable separation : SkyPoint -> SkyPoint -> float.
Variables c_gaia c_sdss : SkyCoord.

(** The number the loop calls [unique_gaia] for a radius: the distinct values
    of the first index array its search call returns. *)
Definition unique_first (r : float) : nat :=
  nunique (map (fun t => fst (fst t))
               (SkyCoord_search_around_sky separation c_gaia c_sdss r)).

(** The table [df_matches] of a radius. *)
Definition matches_at (r : float) : list MatchRow :=
  map (fun t => mkMatchRow (fst (fst t)) (snd (fst t)) (snd t))
      (SkyCoord_search_around_sky separation c_gaia c_sdss r).

(** The loop invariant, after the radii [done]: the best count is the
    greatest [unique_first] so far, and the kept radius is the earliest that
    reaches it. *)
Definition selected (done : list float) (st : LoopState) : Prop :=
  best_count st = list_max (map unique_first done) /\
  match best_radius st with
  | None => best_count st = 0 /\ best_matches st = None
  | Some r =>
      0 < best_count st /\ best_matches st = Some (matches_at r) /\
      exists i, nth_error done i = Some r /\
                unique_first r = best_count st /\
                forall j r', j < i -> nth_error done j = Some r' ->
                             unique_first r' < unique_first r
  end.

Lemma selected_initial : selected [] initial_state.
Proof. unfold selected. simpl. auto. Qed.

Lemma selected_keep (done : list float) (st st' : LoopState) (r : float) :
  selected done st ->
  unique_first r <= best_count st ->
  best_count st' = best_count st ->
  best_radius st' = best_radius st ->
  best_matches st' = best_matches st ->
  selected (done ++ [r]) st'.
Proof.
  unfold selected. intros (Hmax & Hbest) Hle Ec Er Em. rewrite Ec, Er, Em.
  split.
  - rewrite map_app, list_max_app. simpl. lia.
  - destruct (best_radius st) as [r0|]; [|exact Hbest].
    destruct Hbest as (Hpos & Hm & i & Hi & Hu & Hearlier).
    split; [exact Hpos|]. split; [exact Hm|].
    assert (Hlt : i < List.length done) by (apply nth_error_Some; congruence).
    exists i. split; [rewrite nth_error_app1; assumption|]. split; [exact Hu|].
    intros j r' Hj Hr'. apply (Hearlier j r' Hj).
    rewrite nth_error_app1 in Hr' by lia. exact Hr'.
Qed.

Lemma try_radius_selected (done : list float) (st : LoopState) (r : float) :
  selected done st -> selected (done ++ [r]) (try_radius separation c_gaia c_sdss st r).
Proof.
  intros Hsel. unfold try_radius. rewrite length_map.
  destruct (SkyCoord_search_around_sky separation c_gaia c_sdss r) as [|t found] eqn:E.
  - cbn [List.length Nat.eqb].
    apply (selected_keep done st _ r Hsel); try reflexivity.
    unfold unique_first. rewrite E. cbn [map]. rewrite nunique_nil. lia.
  - cbn [List.length Nat.eqb].
    fold (unique_first r) in *.
    assert (Hu : nunique (map (fun t => fst (fst t)) (t :: found)) = unique_first r)
      by (unfold unique_first; now rewrite E).
    rewrite Hu.
    destruct (best_count st <? unique_first r) eqn:Hlt.
    + apply Nat.ltb_lt in Hlt. destruct Hsel as (Hmax & _).
      unfold selected. cbn [best_count best_radius best_matches]. split.
      * rewrite map_app, list_max_app. simpl. lia.
      * split; [lia|]. split; [unfold matches_at; now rewrite E|].
        exists (List.length done). split; [|split; [reflexivity|]].
        -- rewrite nth_error_app2, Nat.sub_diag by lia. reflexivity.
        -- intros j r' Hj Hr'. rewrite nth_error_app1 in Hr' by lia.
           apply nth_error_In in Hr'.
           assert (unique_first r' <= list_max (map unique_first done))
             by (apply list_max_In, in_map; exact Hr').
           lia.
    + apply Nat.ltb_ge in Hlt.
      apply (selected_keep done st _ r Hsel); try reflexivity. exact Hlt.
Qed.

Lemma fold_try_radius_selected (todo done : list float) (st : LoopState) :
  selected done st ->
  selected (done ++ todo) (fold_left (try_radius separation c_gaia c_sdss) todo st).
Proof.
  revert done st. induction todo as [|r todo IH]; intros done st H; simpl.
  - now rewrite app_nil_r.
  - replace (done ++ r :: todo) with ((done ++ [r]) ++ todo)
      by (rewrite <- app_assoc; reflexivity).
    apply IH. now apply try_radius_selected.
Qed.

(** The radius kept by the loop of [run_crossmatch]: the best count is the
    greatest number of distinct values in the first index array over the
    candidate radii, and the kept radius is the earliest one that has it. *)
Lemma search_radii_selected (radius_list_arcsec : list float) :
  selected radius_list_arcsec
           (search_radii separation c_gaia c_sdss radius_list_arcsec).
Proof. exact (fold_try_radius_selected radius_list_arcsec [] _ selected_initial). Qed.

End Selection.

(** *** Runs on small catalogs *)

(** A table with the columns [ra] and [dec] from a list of positions, and a
    file system holding a Gaia and an SDSS table under the default paths. *)
Definition positions_table (l : list SkyPoint) : DataFrame :=
  mkDataFrame ["ra"; "dec"]
    (map (fun p => [("ra", VFloat (fst p)); ("dec", VFloat (snd p))]) l).

Definition fs_catalogs (gaia sdss : DataFrame) : FileSystem :=
  fun path => if String.eqb path "data/raw/gaia_sample.csv" then Some gaia
              else if String.eqb path "data/raw/sdss_stars.csv" then Some sdss
              else None.

(** Two Gaia stars on the equator, 0.36 arc-seconds either side of the first
    of two SDSS stars; the second SDSS star is 1.44 and 2.16 arc-seconds from
    them. *)
Definition gaia_pair : list SkyPoint := [(180.0001, 0.0); (179.9999, 0.0)]%float.
Definition sdss_pair : list SkyPoint := [(180.0, 0.0); (179.9995, 0.0)]%float.

(** The number of distinct Gaia (catalog A) positions among the pairs within
    [r]. *)
Definition unique_gaia_positions (separation : SkyPoint -> SkyPoint -> float)
           (c_gaia c_sdss : SkyCoord) (r : float) : nat :=
  nunique (map (fun t => fst (fst t)) (search_around_sky separation c_gaia c_sdss r)).

(** The selection rule in the words of the specification: of the radii with
    the greatest score, the earliest. *)
Fixpoint earliest_greatest (score : float -> nat) (radii : list float) : option float :=
  match radii with
  | [] => None
  | r :: rest =>
      match earliest_greatest score rest with
      | Some r' => if score r <? score r' then Some r' else Some r
      | None => Some r
      end
  end.

(** C1 (the code departs from it). On [gaia_pair] and [sdss_pair] with the
    default radii both Gaia stars are matched at every radius, so the rule
    names the first radius, 1.0; [run_crossmatch] chooses 2.0, the radius at
    which the second SDSS star first appears: the index array it counts as
    Gaia's is the one of the SDSS catalog. *)
Theorem radius_choice_counts_sdss (float_of_string : string -> option float) :
  fst (run_crossmatch equatorial_separation float_of_string
         (fs_catalogs (positions_table gaia_pair) (positions_table sdss_pair))
         "data/raw/gaia_sample.csv" "data/raw/sdss_stars.csv"
         [1.0; 2.0; 5.0; 10.0]%float)
  = [Searching 1.0; RawPairs 2; UniqueMatched 1 2;
     Searching 2.0; RawPairs 3; UniqueMatched 2 2;
     Searching 5.0; RawPairs 4; UniqueMatched 2 2;
     Searching 10.0; RawPairs 4; UniqueMatched 2 2;
     BestRadiusChosen (Some 2.0%float) 2 3]%float /\
  map (unique_gaia_positions equatorial_separation gaia_pair sdss_pair)
      [1.0; 2.0; 5.0; 10.0]%float = [2; 2; 2; 2] /\
  earliest_greatest (unique_gaia_positions equatorial_separation gaia_pair sdss_pair)
                    [1.0; 2.0; 5.0; 10.0]%float = Some 1.0%float.
Proof. repeat split; vm_compute; reflexivity. Qed.

(** The radius the loop keeps is the earliest of the candidate radii with
    the greatest number of distinct values in the first index array of its
    search call, and [best_count] is that number; no radius is kept when the
    number is zero throughout. *)
Theorem radius_selection_rule (separation : SkyPoint -> SkyPoint -> float)
        (c_gaia c_sdss : SkyCoord) (radius_list_arcsec : list float) :
  let st := search_radii separation c_gaia c_sdss radius_list_arcsec in
  let score := unique_first separation c_gaia c_sdss in
  best_count st = list_max (map score radius_list_arcsec) /\
  match best_radius st with
  | None => best_count st = 0 /\ best_matches st = None
  | Some r =>
      0 < best_count st /\
      best_matches st = Some (matches_at separation c_gaia c_sdss r) /\
      exists i, nth_error radius_list_arcsec i = Some r /\
                score r = best_count st /\
                forall j r', j < i -> nth_error radius_list_arcsec j = Some r' ->
                             score r' < score r
  end.
Proof. exact (search_radii_selected separation c_gaia c_sdss radius_list_arcsec). Qed.

(** The scenario of the specification: one Gaia record at (180.0, 0.0), one
    SDSS record at (180.0003, 0.0), radii 1.0, 2.0 and 5.0.  The run finds no
    pair within 1.0, chooses the radius 2.0 and reports one unique match. *)
Theorem scenario_two_records (float_of_string : string -> option float) :
  run_crossmatch equatorial_separation float_of_string
    (fs_catalogs (positions_table [(180.0, 0.0)%float])
                 (positions_table [(180.0003, 0.0)%float]))
    "data/raw/gaia_sample.csv" "data/raw/sdss_stars.csv" [1.0; 2.0; 5.0]%float
  = ([Searching 1.0; RawPairs 0;
      Searching 2.0; RawPairs 1; UniqueMatched 1 1;
      Searching 5.0; RawPairs 1; UniqueMatched 1 1;
      BestRadiusChosen (Some 2.0%float) 1 1]%float,
     Ok (mkMatched
           [mkMatchRow 0 0 (equatorial_separation (180.0003, 0.0) (180.0, 0.0))%float]
           [])).
Proof. vm_compute. reflexivity. Qed.

(** *** When no radius finds a pair *)

Lemma dict_set_In (d : list (float * details)) (r : float) (v : details) :
  exists k, (k = r \/ (k =? r)%float = true) /\ In (k, v) (dict_set d r v).
Proof.
  induction d as [|kv d IH]; simpl.
  - exists r. auto.
  - destruct kv as [k' v']. destruct IH as (k & Hk & Hin).
    destruct (k' =? r)%float eqn:E.
    + exists k'. simpl. auto.
    + exists k. simpl. auto.
Qed.

Lemma dict_set_keeps (d : list (float * details)) (k r : float) (v : details) :
  In (k, v) d -> In (k, v) (dict_set d r v).
Proof.
  induction d as [|[k' v'] d IH]; simpl; [tauto|].
  destruct (k' =? r)%float; simpl; intros [[= -> ->]|H]; auto.
Qed.

Lemma fold_dict_set_keeps (radii : list float) (d : list (float * details))
      (k : float) :
  In (k, NoPairs) d ->
  In (k, NoPairs) (fold_left (fun d r => dict_set d r NoPairs) radii d).
Proof.
  revert d. induction radii as [|r radii IH]; intros d H; simpl; [exact H|].
  apply IH. now apply dict_set_keeps.
Qed.

Lemma fold_dict_set_In (radii : list float) (d : list (float * details)) (r : float) :
  In r radii ->
  exists k, (k = r \/ (k =? r)%float = true) /\
            In (k, NoPairs) (fold_left (fun d r => dict_set d r NoPairs) radii d).
Proof.
  revert d. induction radii as [|r' radii IH]; intros d; simpl; [tauto|].
  intros [->|H]; [|now apply IH].
  destruct (dict_set_In d r NoPairs) as (k & Hk & Hin).
  exists k. split; [exact Hk|]. now apply fold_dict_set_keeps.
Qed.

Section NoMatch.
Variable separation : SkyPoint -> SkyPoint -> float.
Variables c_gaia c_sdss : SkyCoord.

Definition no_pairs (r : float) : Prop :=
  SkyCoord_search_around_sky separation c_gaia c_sdss r = [].

Lemma try_radius_no_pairs (st : LoopState) (r : float) :
  no_pairs r ->
  try_radius separation c_gaia c_sdss st r =
  mkLoopState (best_matches st) (best_radius st) (best_count st)
              (dict_set (result_details st) r NoPairs)
              (printed st ++ [Searching r; RawPairs 0]).
Proof. intros Hr. unfold try_radius. rewrite Hr. reflexivity. Qed.

Lemma fold_no_pairs (radii : list float) (st : LoopState) :
  Forall no_pairs radii ->
  let st' := fold_left (try_radius separation c_gaia c_sdss) radii st in
  best_matches st' = best_matches st /\
  result_details st' =
    fold_left (fun d r => dict_set d r NoPairs) radii (result_details st).
Proof.
  intros H. revert st. induction H as [|r radii Hr _ IH]; intros st; simpl.
  - auto.
  - rewrite (try_radius_no_pairs st r Hr).
    destruct (IH (mkLoopState (best_matches st) (best_radius st) (best_count st)
                    (dict_set (result_details st) r NoPairs)
                    (printed st ++ [Searching r; RawPairs 0]))) as (Hm & Hd).
    auto.
Qed.

End NoMatch.

(** The per-radius pair counts of a run. *)
Definition pair_counts (separation : SkyPoint -> SkyPoint -> float)
           (c_gaia c_sdss : SkyCoord) (radii : list float) : list (float * nat) :=
  map (fun r => (r, List.length (SkyCoord_search_around_sky separation c_gaia c_sdss r)))
      radii.

(** The claim that the error of a run without pairs carries the per-radius
    counts: they can be read off the raised value. *)
Definition error_carries_counts (separation : SkyPoint -> SkyPoint -> float) : Prop :=
  exists decode : exn -> list (float * nat),
    forall (gaia : DataFrame) (c_gaia c_sdss : SkyCoord) (radii : list float) (e : exn),
      Forall (no_pairs separation c_gaia c_sdss) radii ->
      snd (conclude gaia (search_radii separation c_gaia c_sdss radii)) = Raise e ->
      decode e = pair_counts separation c_gaia c_sdss radii.

(** C4, as stated, fails: the runs with the radii [1.0] and [1.0; 2.0] on two
    stars far apart raise the same value, and their counts differ. *)
Lemma no_match_error_lacks_counts : ~ error_carries_counts equatorial_separation.
Proof.
  intros (decode & H).
  assert (H1 : decode (RuntimeError no_matches_message) =
               pair_counts equatorial_separation
                 [(10.0, 0.0)%float] [(100.0, 0.0)%float] [1.0%float]).
  { apply (H (positions_table [(10.0, 0.0)%float]));
      [repeat constructor | reflexivity]. }
  assert (H2 : decode (RuntimeError no_matches_message) =
               pair_counts equatorial_separation
                 [(10.0, 0.0)%float] [(100.0, 0.0)%float] [1.0%float; 2.0%float]).
  { apply (H (positions_table [(10.0, 0.0)%float]));
      [repeat constructor | reflexivity]. }
  rewrite H1 in H2.
  apply (f_equal (@List.length _)) in H2. vm_compute in H2. discriminate.
Qed.

(** C4, amended. If every candidate radius yields zero pairs, the run raises
    a [RuntimeError] whose value is a fixed message; the per-radius counts are
    printed before it, one summary line with zero pairs for each radius. *)
Theorem no_match_raises_fixed_message
        (separation : SkyPoint -> SkyPoint -> float)
        (float_of_string : string -> option float)
        (fs : FileSystem) (gaia_csv sdss_csv : string) (radii : list float)
        (gaia sdss : DataFrame) (gra gdec sra sdec : string)
        (c_gaia c_sdss : SkyCoord) :
  load_table float_of_string fs gaia_csv "Gaia" = Ok (gaia, gra, gdec) ->
  load_table float_of_string fs sdss_csv "SDSS" = Ok (sdss, sra, sdec) ->
  sky_coords gaia gra gdec = Ok c_gaia ->
  sky_coords sdss sra sdec = Ok c_sdss ->
  Forall (no_pairs separation c_gaia c_sdss) radii ->
  let run := run_crossmatch separation float_of_string fs gaia_csv sdss_csv radii in
  snd run = Raise (RuntimeError no_matches_message) /\
  In NoMatchesFound (fst run) /\
  forall r, In r radii ->
            exists k, (k = r \/ (k =? r)%float = true) /\
                      In (RadiusSummary k 0 0) (fst run).
Proof.
  intros Hg Hs Hcg Hcs Hzero run. subst run. unfold run_crossmatch.
  rewrite Hg, Hs, Hcg, Hcs.
  destruct (fold_no_pairs separation c_gaia c_sdss radii initial_state Hzero)
    as (Hm & Hd).
  unfold search_radii, conclude. rewrite Hm, Hd. cbn [best_matches initial_state fst snd].
  split; [reflexivity|]. split.
  - apply in_or_app. right. now left.
  - intros r Hr.
    destruct (fold_dict_set_In radii (result_details initial_state) r Hr)
      as (k & Hk & Hin).
    exists k. split; [exact Hk|]. apply in_or_app. right. right.
    apply in_map_iff. exists (k, NoPairs). split; [reflexivity | exact Hin].
Qed.

Lemma no_match_raises_fixed_message_witness :
  snd (run_crossmatch equatorial_separation (fun _ => None)
         (fs_catalogs (positions_table [(10.0, 0.0)%float])
                      (positions_table [(100.0, 0.0)%float]))
         "data/raw/gaia_sample.csv" "data/raw/sdss_stars.csv" [1.0; 2.0]%float)
  = Raise (RuntimeError no_matches_message).
Proof.
  apply (no_match_raises_fixed_message equatorial_separation (fun _ => None)
           (fs_catalogs (positions_table [(10.0, 0.0)%float])
                        (positions_table [(100.0, 0.0)%float]))
           "data/raw/gaia_sample.csv" "data/raw/sdss_stars.csv" [1.0; 2.0]%float
           (positions_table [(10.0, 0.0)%float]) (positions_table [(100.0, 0.0)%float])
           "ra" "dec" "ra" "dec" [(10.0, 0.0)%float] [(100.0, 0.0)%float]);
    try reflexivity.
  repeat constructor.
Defined.

End CrossmatchFacts.

(* ================================================================== *)
(** ** The nearest-neighbour cross-match *)

Module NearestFacts.
Import Crossmatch.

Section Nearest.
Variable separation : SkyPoint -> SkyPoint -> float.

(** The scan returns the best so far or a later position of the catalog,
    with the separation to it. *)
Lemma nearest_from_position (g : SkyPoint) (best : nat * float) (i : nat)
      (catalog : list SkyPoint) :
  nearest_from separation g best i catalog = best \/
  exists q, i <= fst (nearest_from separation g best i catalog) /\
            nth_error catalog (fst (nearest_from separation g best i catalog) - i) = Some q /\
            snd (nearest_from separation g best i catalog) = separation g q.
Proof.
  revert best i. induction catalog as [|s rest IH]; intros best i; simpl; [now left|].
  assert (Hshift : forall b,
             (exists q, S i <= fst (nearest_from separation g b (S i) rest) /\
                        nth_error rest (fst (nearest_from separation g b (S i) rest) - S i)
                          = Some q /\
                        snd (nearest_from separation g b (S i) rest) = separation g q) ->
             exists q, i <= fst (nearest_from separation g b (S i) rest) /\
                       nth_error (s :: rest)
                                 (fst (nearest_from separation g b (S i) rest) - i) = Some q /\
                       snd (nearest_from separation g b (S i) rest) = separation g q).
  { intros b (q & Hle & Hn & Hs). exists q. split; [lia|]. split; [|exact Hs].
    replace (fst (nearest_from separation g b (S i) rest) - i)
      with (S (fst (nearest_from separation g b (S i) rest) - S i)) by lia.
    exact Hn. }
  destruct (separation g s <? snd best)%float.
  - right. destruct (IH (i, separation g s) (S i)) as [E|H]; [|now apply Hshift].
    rewrite E. simpl. exists s. rewrite Nat.sub_diag. auto.
  - destruct (IH best (S i)) as [E|H]; [now left | right; now apply Hshift].
Qed.

(** Without NaN among the separations, the scan returns a least one. *)
Lemma nearest_from_least (g : SkyPoint) (best : nat * float) (i : nat)
      (catalog : list SkyPoint) :
  is_nan (snd best) = false ->
  (forall q, In q catalog -> is_nan (separation g q) = false) ->
  (snd (nearest_from separation g best i catalog) <=? snd best)%float = true /\
  forall q, In q catalog ->
            (snd (nearest_from separation g best i catalog) <=? separation g q)%float = true.
Proof.
  revert best i. induction catalog as [|s rest IH]; intros best i Hb Hc; simpl.
  - split; [now apply F64.leb_refl | tauto].
  - assert (Hs : is_nan (separation g s) = false) by (apply Hc; now left).
    assert (Hrest : forall q, In q rest -> is_nan (separation g q) = false)
      by (intros q Hq; apply Hc; now right).
    destruct (separation g s <? snd best)%float eqn:E.
    + destruct (IH (i, separation g s) (S i) Hs Hrest) as (H1 & H2). simpl in H1.
      split; [exact (F64.leb_trans _ _ _ H1 (F64.ltb_leb _ _ E))|].
      intros q [<-|Hq]; [exact H1 | now apply H2].
    + destruct (IH best (S i) Hb Hrest) as (H1 & H2).
      split; [exact H1|].
      intros q [<-|Hq]; [|now apply H2].
      exact (F64.leb_trans _ _ _ H1 (F64.ltb_false_leb _ _ Hs Hb E)).
Qed.

(** Position [j] of the catalog is a nearest neighbour of [g], no farther
    than [radius]. *)
Definition nearest_within (catalog : SkyCoord) (radius : float) (g : SkyPoint) (j : nat)
  : Prop :=
  exists q,
    nth_error catalog j = Some q /\
    (separation g q <=? radius)%float = true /\
    ((forall q', In q' catalog -> is_nan (separation g q') = false) ->
     forall q', In q' catalog -> (separation g q <=? separation g q')%float = true).

Lemma match_to_catalog_sky_nearest (self catalog : SkyCoord) (nn : list (nat * float)) :
  match_to_catalog_sky separation self catalog = Ok nn ->
  exists near : SkyPoint -> nat * float,
    nn = map near self /\
    forall g radius, (snd (near g) <=? radius)%float = true ->
                     nearest_within catalog radius g (fst (near g)).
Proof.
  unfold match_to_catalog_sky. destruct catalog as [|s0 rest]; [discriminate|].
  intros [= <-].
  exists (fun g => nearest_from separation g (0, separation g s0) 1 rest).
  split; [reflexivity|]. intros g radius Hr.
  set (res := nearest_from separation g (0, separation g s0) 1 rest) in *.
  assert (Hpos : exists q, nth_error (s0 :: rest) (fst res) = Some q /\
                           snd res = separation g q).
  { destruct (nearest_from_position g (0, separation g s0) 1 rest) as [E|(q & Hle & Hn & Hs)];
      fold res in E || fold res in Hle, Hn, Hs.
    - rewrite E. simpl. eauto.
    - exists q. split; [|exact Hs].
      replace (fst res) with (S (fst res - 1)) by lia. exact Hn. }
  destruct Hpos as (q & Hq & Hs). exists q. split; [exact Hq|].
  rewrite <- Hs. split; [exact Hr|].
  intros Hnan q' Hq'.
  destruct (nearest_from_least g (0, separation g s0) 1 rest) as (H0 & Hrest).
  - apply Hnan. now left.
  - intros q1 Hq1. apply Hnan. now right.
  - fold res in H0, Hrest. destruct Hq' as [<-|Hq']; [exact H0 | now apply Hrest].
Qed.

(** The rows the mask keeps, with the positions they come from. *)
Lemma joined_positions (R : Row -> SkyPoint -> Prop) (near : SkyPoint -> nat * float)
      (radius : float) (nthrow : nat -> Row) (join : Row * Row -> Row)
      (rs : list Row) (c : SkyCoord) (start : nat) :
  Forall2 R rs c ->
  exists kept,
    NoDup kept /\ Forall (fun i => start <= i) kept /\
    Forall2 (fun i row =>
               exists g_row g,
                 nth_error rs (i - start) = Some g_row /\
                 nth_error c (i - start) = Some g /\
                 R g_row g /\
                 (snd (near g) <=? radius)%float = true /\
                 row = join (g_row, nthrow (fst (near g))))
            kept
            (map join
                 (combine
                    (select_mask rs
                       (map (fun s => (s <=? radius)%float) (map snd (map near c))))
                    (map nthrow
                         (select_mask (map fst (map near c))
                            (map (fun s => (s <=? radius)%float)
                                 (map snd (map near c))))))).
Proof.
  intros H. revert start. induction H as [|r g rs c Hrg _ IH]; intros start.
  - exists []. simpl. repeat constructor.
  - destruct (IH (S start)) as (kept & Hnd & Hge & Hrows).
    assert (Hrows' :
              Forall2 (fun i row =>
                         exists g_row g0,
                           nth_error (r :: rs) (i - start) = Some g_row /\
                           nth_error (g :: c) (i - start) = Some g0 /\
                           R g_row g0 /\
                           (snd (near g0) <=? radius)%float = true /\
                           row = join (g_row, nthrow (fst (near g0))))
                      kept
                      (map join
                           (combine
                              (select_mask rs
                                 (map (fun s => (s <=? radius)%float)
                                      (map snd (map near c))))
                              (map nthrow
                                   (select_mask (map fst (map near c))
                                      (map (fun s => (s <=? radius)%float)
                                           (map snd (map near c)))))))).
    { clear - Hge Hrows. induction Hrows as [|i row kept rows Hi _ IHr];
        [constructor|].
      inversion Hge as [|? ? Hle Hge']; subst.
      constructor; [|now apply IHr].
      destruct Hi as (g_row & g0 & H1 & H2 & H3).
      exists g_row, g0. replace (i - start) with (S (i - S start)) by lia.
      auto. }
    assert (Hge' : Forall (fun i => start <= i) kept).
    { revert Hge. apply Forall_impl. intros; lia. }
    cbn [map select_mask].
    destruct (snd (near g) <=? radius)%float eqn:E.
    + exists (start :: kept). split; [|split].
      * constructor; [|exact Hnd]. intros Hin.
        rewrite Forall_forall in Hge. apply Hge in Hin. lia.
      * constructor; [lia | exact Hge'].
      * cbn [map combine]. constructor; [|exact Hrows'].
        exists r, g. rewrite Nat.sub_diag. auto.
    + exists kept. auto.
Qed.

Lemma sky_coords_rows (df : DataFrame) (ra_col dec_col : string) (c : SkyCoord) :
  sky_coords df ra_col dec_col = Ok c ->
  Forall2 (fun r g => cell r ra_col = VFloat (fst g) /\ cell r dec_col = VFloat (snd g))
          (rows df) c.
Proof.
  intros H. apply mapM_Forall2 in H. revert H. apply Forall2_weaken.
  intros r g Hr.
  destruct (cell r ra_col) as [ra|]; [|discriminate].
  destruct (cell r dec_col) as [dec|]; [|discriminate].
  simpl in Hr. injection Hr as <-. auto.
Qed.

(** C10. The simple cross-match is a nearest-neighbour match: every row it
    returns joins the Gaia record of a position [i] with the SDSS record
    nearest to it, and only when that record is no farther than the radius;
    no Gaia position is used twice, so there are at most as many rows as Gaia
    records. *)
Theorem crossmatch_nearest_neighbour (fs : FileSystem) (gaia_csv sdss_csv : string)
        (radius_arcsec : float) (out : DataFrame) :
  crossmatch separation fs gaia_csv sdss_csv radius_arcsec = Ok out ->
  exists gaia sdss c_gaia c_sdss kept,
    fs gaia_csv = Some gaia /\ fs sdss_csv = Some sdss /\
    sky_coords gaia "ra" "dec" = Ok c_gaia /\
    sky_coords sdss "ra" "dec" = Ok c_sdss /\
    NoDup kept /\
    Forall2 (fun i row =>
               exists g_row g j s_row,
                 nth_error (rows gaia) i = Some g_row /\
                 nth_error c_gaia i = Some g /\
                 nth_error (rows sdss) j = Some s_row /\
                 nearest_within c_sdss radius_arcsec g j /\
                 row = add_prefix "gaia_" g_row ++ add_prefix "sdss_" s_row)
            kept (rows out) /\
    List.length (rows out) <= List.length (rows gaia).
Proof.
  unfold crossmatch. intros H.
  apply bind_Ok_inv in H as (gaia & Hg & H).
  apply bind_Ok_inv in H as (sdss & Hs & H).
  apply bind_Ok_inv in H as (u1 & _ & H).
  apply bind_Ok_inv in H as (u2 & _ & H).
  apply bind_Ok_inv in H as (c_gaia & Hcg & H).
  apply bind_Ok_inv in H as (c_sdss & Hcs & H).
  apply bind_Ok_inv in H as (nn & Hnn & H).
  cbv zeta in H. injection H as <-. cbn [rows].
  unfold read_csv in Hg, Hs.
  destruct (fs gaia_csv) as [gaia'|]; [injection Hg as ->|discriminate].
  destruct (fs sdss_csv) as [sdss'|]; [injection Hs as ->|discriminate].
  apply match_to_catalog_sky_nearest in Hnn as (near & -> & Hnear).
  pose proof (sky_coords_rows _ _ _ _ Hcg) as Fg.
  pose proof (sky_coords_rows _ _ _ _ Hcs) as Fs.
  destruct (joined_positions _ near radius_arcsec (fun j => nth j (rows sdss) [])
              (fun gs => add_prefix "gaia_" (fst gs) ++ add_prefix "sdss_" (snd gs))
              (rows gaia) c_gaia 0 Fg) as (kept & Hnd & _ & Hrows).
  exists gaia, sdss, c_gaia, c_sdss, kept.
  repeat (split; [first [reflexivity | assumption]|]).
  split.
  - revert Hrows. apply Forall2_weaken.
    intros i row (g_row & g & Hi & Hgi & _ & Hle & ->).
    rewrite Nat.sub_0_r in Hi, Hgi.
    pose proof (Hnear g radius_arcsec Hle) as Hn.
    exists g_row, g, (fst (near g)), (nth (fst (near g)) (rows sdss) []).
    repeat split; try assumption.
    destruct Hn as (q & Hq & _).
    apply nth_error_nth'. rewrite (Forall2_length Fs).
    apply nth_error_Some. intros E.
    pose proof (eq_trans (eq_sym E) Hq) as Habs. discriminate Habs.
  - rewrite length_map. etransitivity; [apply Nat.eq_le_incl, length_combine|].
    etransitivity; [apply Nat.le_min_l|]. apply select_mask_length.
Qed.

End Nearest.

(** One Gaia star with two SDSS stars 0.36 and 1.44 arc-seconds from it, and
    a second Gaia star with no SDSS star nearby. *)
Definition fs_nearest : FileSystem :=
  CrossmatchFacts.fs_catalogs
    (CrossmatchFacts.positions_table [(180.0, 0.0); (190.0, 0.0)]%float)
    (CrossmatchFacts.positions_table [(180.0004, 0.0); (180.0001, 0.0)]%float).

Lemma crossmatch_nearest_neighbour_witness :
  exists out,
    crossmatch equatorial_separation fs_nearest
      "data/raw/gaia_sample.csv" "data/raw/sdss_stars.csv" 1.0%float = Ok out /\
    List.length (rows out) = 1 /\
    exists gaia, fs_nearest "data/raw/gaia_sample.csv" = Some gaia /\
                 List.length (rows out) <= List.length (rows gaia).
Proof.
  eexists. split; [vm_compute; reflexivity|]. split; [reflexivity|].
  destruct (crossmatch_nearest_neighbour equatorial_separation fs_nearest
              "data/raw/gaia_sample.csv" "data/raw/sdss_stars.csv" 1.0%float _ eq_refl)
    as (gaia & sdss & c_gaia & c_sdss & kept & Hg & _ & _ & _ & _ & _ & Hlen).
  exists gaia. split; [exact Hg | exact Hlen].
Defined.

End NearestFacts.

(* ================================================================== *)
(** ** Determinism of the stages *)

Module Determinism.
Import ProcessGaia CrossmatchDebug.

(** A stage, as the relation between an input and the outputs its runs may
    produce, is deterministic when two runs on one input agree. *)
Definition deterministic {I O : Type} (runs : I -> O -> Prop) : Prop :=
  forall i o1 o2, runs i o1 -> runs i o2 -> o1 = o2.

Section Stages.
Variable separation : SkyPoint -> SkyPoint -> float.
Variable float_of_string : string -> option float.
Variable log10 : float -> float.

Definition loader_runs (i : FileSystem * string * string)
           (o : result (DataFrame * string * string)) : Prop :=
  o = load_table float_of_string (fst (fst i)) (snd (fst i)) (snd i).

Definition matcher_runs (i : FileSystem * string * string * list float)
           (o : list line * result Matched) : Prop :=
  o = run_crossmatch separation float_of_string
        (fst (fst (fst i))) (snd (fst (fst i))) (snd (fst i)) (snd i).

(** A run of the deriver starts from some state of the unseeded generator. *)
Definition deriver_runs (df : DataFrame) (o : result DataFrame) : Prop :=
  exists rng, unit_variates rng /\ o = process_gaia_csv log10 rng df.

Lemma fill_missing_teff_draws (rng1 rng2 : RandomState) (df : DataFrame) :
  (forall i, i < List.length (rows df) -> rng1 i = rng2 i) ->
  fill_missing_teff rng1 df = fill_missing_teff rng2 df.
Proof.
  intros H. unfold fill_missing_teff, np_random_uniform.
  destruct (has_column df "teff_gspphot"); [reflexivity|].
  do 2 f_equal. apply map_ext_in. intros i Hi. apply in_seq in Hi.
  rewrite H by lia. reflexivity.
Qed.

(** C5, amended. The loader and the cross-matcher are deterministic, and so
    is the deriver on a table that has a [teff_gspphot] column; on a table
    without it the output is determined by the table together with the
    [len(df)] draws the deriver takes from the generator. *)
Theorem stages_deterministic_with_teff :
  deterministic loader_runs /\
  deterministic matcher_runs /\
  (forall df o1 o2,
      has_column df "teff_gspphot" = true ->
      deriver_runs df o1 -> deriver_runs df o2 -> o1 = o2) /\
  (forall df rng1 rng2,
      (forall i, i < List.length (rows df) -> rng1 i = rng2 i) ->
      process_gaia_csv log10 rng1 df = process_gaia_csv log10 rng2 df).
Proof.
  repeat split.
  - intros i o1 o2 -> ->. reflexivity.
  - intros i o1 o2 -> ->. reflexivity.
  - intros df o1 o2 Hteff (rng1 & _ & ->) (rng2 & _ & ->).
    unfold process_gaia_csv, fill_missing_teff. rewrite Hteff. reflexivity.
  - intros df rng1 rng2 H. unfold process_gaia_csv.
    now rewrite (fill_missing_teff_draws rng1 rng2 df H).
Qed.

End Stages.

(** The mass estimate of the first record of an output, as a test that tells
    two outputs apart. *)
Definition first_mass_below_one (o : result DataFrame) : bool :=
  match o with
  | Ok df => match rows df with
             | r :: _ => match cell r "mass_est" with
                         | VFloat m => (m <? 1.0)%float
                         | VStr _ => false
                         end
             | [] => false
             end
  | Raise _ => false
  end.

(** C5, as stated, fails for the deriver: on a table without temperatures
    the run that draws 0.0 and the run that draws 0.5 return different
    tables. *)
Lemma deriver_not_deterministic :
  ~ deterministic (deriver_runs DeriverFacts.log10_series).
Proof.
  intros H.
  assert (Hlow : unit_variates DeriverFacts.rng_low) by (intros i; split; reflexivity).
  assert (Hmid : unit_variates DeriverFacts.rng_mid) by (intros i; split; reflexivity).
  pose proof (H DeriverFacts.gaia_no_teff _ _
                (ex_intro _ DeriverFacts.rng_low (conj Hlow eq_refl))
                (ex_intro _ DeriverFacts.rng_mid (conj Hmid eq_refl))) as E.
  apply (f_equal first_mass_below_one) in E. vm_compute in E. discriminate.
Qed.

Lemma stages_deterministic_with_teff_witness :
  process_gaia_csv DeriverFacts.log10_series DeriverFacts.rng_low
                   DeriverFacts.gaia_two_stars =
  process_gaia_csv DeriverFacts.log10_series DeriverFacts.rng_mid
                   DeriverFacts.gaia_two_stars.
Proof.
  apply (proj1 (proj2 (proj2 (stages_deterministic_with_teff
                                equatorial_separation (fun _ => None)
                                DeriverFacts.log10_series)))
               DeriverFacts.gaia_two_stars).
  - reflexivity.
  - exists DeriverFacts.rng_low. split; [intros i; split; reflexivity | reflexivity].
  - exists DeriverFacts.rng_mid. split; [intros i; split; reflexivity | reflexivity].
Defined.

End Determinism.

(* ================================================================== *)
(** ** More on the feature deriver: classes, cleaning, columns, errors *)

Module DeriverMore.
Import ProcessGaia DeriverFacts.
Local Open Scope float_scope.
Local Arguments cell : simpl never.

(** A test against a lower threshold succeeds once a test against a higher
    one does. *)
Lemma below_mono (x a b : float) :
  (a <=? b) = true -> (x <? a) = true -> (x <? b) = true.
Proof. intros Hab Hx. exact (F64.ltb_leb_trans _ _ _ Hx Hab). Qed.

(** The mass estimates that can stand beside each class. *)
Definition class_masses (star_class : string) : list float :=
  if String.eqb star_class "cool_star" then [0.6]
  else if String.eqb star_class "sun_like" then [0.9; 1.2]
  else if String.eqb star_class "hot_star" then [1.2; 2.0]
  else if String.eqb star_class "very_hot_star" then [5.0; 10.0]
  else [].

(** [classify_star] is the step function of temperature with the
    breakpoints 4000, 6500 and 10000 K; every other temperature, NaN among
    them, is a [very_hot_star].  The class always agrees with the mass
    estimate of the same temperature: a [cool_star] has 0.6 solar masses, a
    [sun_like] star 0.9 or 1.2, a [hot_star] 1.2 or 2.0, a [very_hot_star]
    5.0 or 10.0. *)
Theorem classify_star_breakpoints (teff : float) :
  ((teff <? 4000) = true -> classify_star teff = "cool_star"%string) /\
  ((4000 <=? teff) = true -> (teff <? 6500) = true ->
   classify_star teff = "sun_like"%string) /\
  ((6500 <=? teff) = true -> (teff <? 10000) = true ->
   classify_star teff = "hot_star"%string) /\
  ((teff <? 10000) = false -> classify_star teff = "very_hot_star"%string) /\
  In (estimate_mass_from_teff teff) (class_masses (classify_star teff)).
Proof.
  unfold classify_star. repeat split.
  - intros ->. reflexivity.
  - intros L H. rewrite (F64.leb_ltb_false _ _ L), H. reflexivity.
  - intros L H.
    rewrite (below_false teff 4000 6500 eq_refl L), (F64.leb_ltb_false _ _ L), H.
    reflexivity.
  - intros H.
    rewrite (not_below_mono teff 4000 10000 eq_refl H),
            (not_below_mono teff 6500 10000 eq_refl H), H.
    reflexivity.
  - unfold estimate_mass_from_teff.
    destruct (teff <? 4000) eqn:E1; [simpl; tauto|].
    destruct (teff <? 5500) eqn:E2.
    { rewrite (below_mono teff 5500 6500 eq_refl E2). simpl. tauto. }
    destruct (teff <? 6500) eqn:E3.
    { rewrite (below_mono teff 6500 7000 eq_refl E3). simpl. tauto. }
    destruct (teff <? 7000) eqn:E4.
    { rewrite (below_mono teff 7000 10000 eq_refl E4). simpl. tauto. }
    destruct (teff <? 10000) eqn:E5; [simpl; tauto|].
    destruct (teff <? 15000); simpl; tauto.
Qed.

Lemma classify_star_breakpoints_witness :
  classify_star 9000 = "hot_star"%string /\ classify_star 3000 = "cool_star"%string.
Proof.
  split.
  - apply (proj1 (proj2 (proj2 (classify_star_breakpoints 9000)))); reflexivity.
  - apply (proj1 (classify_star_breakpoints 3000)); reflexivity.
Defined.

(** *** What the cleaning keeps *)

Lemma select_mask_filter_length {A : Type} (p : A -> bool) (l : list A)
      (mask : list bool) :
  List.length (select_mask (filter p l) mask) <= List.length l.
Proof.
  etransitivity; [apply select_mask_length|].
  induction l as [|x l IH]; simpl; [lia|]. destruct (p x); simpl; lia.
Qed.

(** A record the cleaning lets through: a positive temperature and a G
    magnitude that is not missing. *)
Definition kept_record (r : Row) : Prop :=
  (exists t, cell r "teff_gspphot" = VFloat t /\ (0 <? t) = true) /\
  isna (cell r "phot_g_mean_mag") = false.

Lemma clean_dataset_kept (df df' : DataFrame) :
  clean_dataset df = Ok df' ->
  List.length (rows df') <= List.length (rows df) /\
  Forall (fun r => In r (rows df) /\ kept_record r) (rows df').
Proof.
  unfold clean_dataset. intros H. apply bind_Ok_inv in H as (mask & Hm & H).
  injection H as <-. cbn [rows dropna]. split; [apply select_mask_filter_length|].
  apply mapM_Forall2 in Hm. apply select_mask_Forall in Hm.
  revert Hm. apply Forall_impl. intros r (Hin & Hr). cbn [rows dropna] in Hin.
  apply filter_In in Hin as (Hin & Hna). split; [exact Hin|].
  apply negb_true_iff in Hna. simpl in Hna.
  apply orb_false_elim in Hna as (_ & Hna). apply orb_false_elim in Hna as (Hph & _).
  split; [|exact Hph].
  unfold num in Hr. destruct (cell r "teff_gspphot") as [t|s] eqn:E; simpl in Hr;
    [|discriminate].
  injection Hr as Hr. exists t. auto.
Qed.

Lemma fill_missing_teff_length (rng : RandomState) (df : DataFrame) :
  List.length (rows (fill_missing_teff rng df)) = List.length (rows df).
Proof.
  unfold fill_missing_teff. destruct (has_column df "teff_gspphot"); [reflexivity|].
  unfold set_column, np_random_uniform. cbn [rows].
  rewrite length_map, length_combine, !length_map, length_seq. lia.
Qed.

(** The deriver never returns more records than it was given.  Every record
    it returns comes from a record of the input (after the temperature
    column was filled in, if it was missing) whose temperature is positive
    and whose G magnitude is present, and agrees with that record in every
    column the deriver does not write. *)
Theorem deriver_keeps_clean_records (log10 : float -> float) (rng : RandomState)
        (df out : DataFrame) :
  process_gaia_csv log10 rng df = Ok out ->
  List.length (rows out) <= List.length (rows df) /\
  Forall (fun r' =>
            exists r,
              In r (rows (fill_missing_teff rng df)) /\
              kept_record r /\
              forall c, ~ In c derived_columns -> cell r' c = cell r c)
         (rows out).
Proof.
  unfold process_gaia_csv. intros H.
  apply bind_Ok_inv in H as (u & _ & H).
  apply bind_Ok_inv in H as (d & Hc & H).
  apply clean_dataset_kept in Hc as (Hlen & Hrows).
  apply derive_features_rows in H.
  split.
  - rewrite <- (Forall2_length H), <- (fill_missing_teff_length rng df). exact Hlen.
  - eapply Forall2_Forall_r; [|exact (Forall2_Forall_l _ _ _ _ Hrows H)].
    cbv beta. intros r r' ((Hin & Hk) & teff & _ & _ & _ & _ & _ & _ & _ & Hframe & _).
    exists r. auto.
Qed.

(** A Gaia table with a missing temperature, a negative temperature and a
    missing magnitude: only its last record is clean. *)
Definition gaia_dirty : DataFrame :=
  mkDataFrame
    ["ra"; "dec"; "phot_g_mean_mag"; "teff_gspphot"]%string
    [ [("ra", VFloat 1.0); ("dec", VFloat 2.0); ("phot_g_mean_mag", VFloat 12.5);
       ("teff_gspphot", VFloat nan)]%string;
      [("ra", VFloat 3.0); ("dec", VFloat 4.0); ("phot_g_mean_mag", VFloat 11.0);
       ("teff_gspphot", VFloat (-5.0))]%string;
      [("ra", VFloat 5.0); ("dec", VFloat 6.0); ("phot_g_mean_mag", VFloat nan);
       ("teff_gspphot", VFloat 5000)]%string;
      [("ra", VFloat 7.0); ("dec", VFloat 8.0); ("phot_g_mean_mag", VFloat 9.0);
       ("teff_gspphot", VFloat 6000)]%string ].

Lemma deriver_keeps_clean_records_witness :
  exists out,
    process_gaia_csv log10_series rng_low gaia_dirty = Ok out /\
    List.length (rows out) = 1%nat /\
    List.length (rows out) <= List.length (rows gaia_dirty).
Proof.
  eexists. split; [vm_compute; reflexivity|]. split; [reflexivity|].
  apply (deriver_keeps_clean_records log10_series rng_low gaia_dirty).
  vm_compute. reflexivity.
Defined.

(** *** The columns of the output *)

(** The columns the deriver assigns, in the order of the script. *)
Definition written_columns (has_parallax : bool) : list string :=
  ["teff_gspphot"; "teff"; "log_teff"; "mass_est"; "log_mass"]%string
  ++ (if has_parallax then ["distance_pc"; "abs_mag_g"]%string else ["abs_mag_g"]%string)
  ++ ["star_class"; "prob_white_dwarf"; "prob_neutron_star"; "prob_black_hole"]%string.

Lemma add_column_incl (cols : list string) (c : string) : incl cols (add_column cols c).
Proof.
  unfold add_column. destruct (existsb (String.eqb c) cols).
  - apply incl_refl.
  - apply incl_appl, incl_refl.
Qed.

Lemma add_column_NoDup (cols : list string) (c : string) :
  NoDup cols -> NoDup (add_column cols c).
Proof.
  intros H. unfold add_column. destruct (existsb (String.eqb c) cols) eqn:E; [exact H|].
  apply NoDup_app; [exact H | repeat constructor; simpl; tauto |].
  intros x Hx. simpl. intros [<-|[]].
  assert (existsb (String.eqb c) cols = true); [|congruence].
  apply existsb_exists. exists c. split; [exact Hx | apply String.eqb_refl].
Qed.

Lemma fold_add_column_incl (names cols : list string) :
  incl cols (fold_left add_column names cols).
Proof.
  revert cols. induction names as [|c names IH]; intros cols; simpl.
  - apply incl_refl.
  - eapply incl_tran; [apply add_column_incl | apply IH].
Qed.

Lemma fold_add_column_NoDup (names cols : list string) :
  NoDup cols -> NoDup (fold_left add_column names cols).
Proof.
  revert cols. induction names as [|c names IH]; intros cols H; simpl; [exact H|].
  apply IH. now apply add_column_NoDup.
Qed.

Lemma fold_add_column_has (names cols : list string) (c : string) :
  existsb (String.eqb c) (fold_left add_column names cols) =
  (existsb (String.eqb c) names || existsb (String.eqb c) cols)%bool.
Proof.
  revert cols. induction names as [|n names IH]; intros cols; simpl; [reflexivity|].
  rewrite IH, has_column_add.
  destruct (String.eqb c n), (existsb (String.eqb c) names),
           (existsb (String.eqb c) cols); reflexivity.
Qed.

Lemma fill_missing_teff_columns (rng : RandomState) (df : DataFrame) :
  columns (fill_missing_teff rng df) = add_column (columns df) "teff_gspphot".
Proof.
  unfold fill_missing_teff, has_column, add_column.
  destruct (existsb (String.eqb "teff_gspphot") (columns df)) eqn:E; [reflexivity|].
  unfold set_column, add_column. cbn [columns]. now rewrite E.
Qed.

Lemma derive_features_columns (log10 : float -> float) (df out : DataFrame) :
  derive_features log10 df = Ok out ->
  columns out =
    fold_left add_column (tl (written_columns (has_column df "parallax"))) (columns df).
Proof.
  unfold derive_features. intros H.
  apply bind_Ok_inv in H as (d1 & H1 & H). apply assign_inv in H1 as (C1 & _).
  apply bind_Ok_inv in H as (d2 & H2 & H). apply assign_inv in H2 as (C2 & _).
  apply bind_Ok_inv in H as (d3 & H3 & H). apply assign_inv in H3 as (C3 & _).
  apply bind_Ok_inv in H as (d4 & H4 & H). apply assign_inv in H4 as (C4 & _).
  apply bind_Ok_inv in H as (d5 & H5 & H).
  apply bind_Ok_inv in H as (d6 & H6 & H). apply assign_inv in H6 as (C6 & _).
  apply bind_Ok_inv in H as (d7 & H7 & H). apply assign_inv in H7 as (C7 & _).
  apply bind_Ok_inv in H as (d8 & H8 & H). apply assign_inv in H8 as (C8 & _).
  apply bind_Ok_inv in H as (d9 & H9 & H). apply assign_inv in H9 as (C9 & _).
  injection H as <-.
  assert (HP : has_column d4 "parallax" = has_column df "parallax").
  { unfold has_column. rewrite C4, C3, C2, C1, !has_column_add. reflexivity. }
  rewrite HP in H5. rewrite C9, C8, C7, C6.
  destruct (has_column df "parallax").
  - apply bind_Ok_inv in H5 as (d5a & H5a & H5b).
    apply assign_inv in H5a as (C5a & _). apply assign_inv in H5b as (C5b & _).
    rewrite C5b, C5a, C4, C3, C2, C1. reflexivity.
  - apply assign_inv in H5 as (C5 & _). rewrite C5, C4, C3, C2, C1. reflexivity.
Qed.

Lemma process_gaia_csv_columns (log10 : float -> float) (rng : RandomState)
      (df out : DataFrame) :
  process_gaia_csv log10 rng df = Ok out ->
  columns out =
    fold_left add_column (written_columns (has_column df "parallax")) (columns df).
Proof.
  unfold process_gaia_csv. intros H.
  apply bind_Ok_inv in H as (u & _ & H).
  apply bind_Ok_inv in H as (d & Hc & H).
  apply clean_dataset_rows in Hc as (Hcols & _).
  apply derive_features_columns in H.
  assert (HP : has_column d "parallax" = has_column df "parallax").
  { unfold has_column at 1. rewrite Hcols. apply fill_missing_teff_parallax. }
  rewrite HP, Hcols, fill_missing_teff_columns in H. exact H.
Qed.

(** The columns of the table the deriver returns are those of the input
    followed by the columns it assigns that the input did not have, in the
    order of the script.  So no input column is lost, column names stay
    distinct, and [distance_pc] is a column of the output only if the input
    had it or had a [parallax] column. *)
Theorem deriver_output_columns (log10 : float -> float) (rng : RandomState)
        (df out : DataFrame) :
  process_gaia_csv log10 rng df = Ok out ->
  columns out =
    fold_left add_column (written_columns (has_column df "parallax")) (columns df) /\
  incl (columns df) (columns out) /\
  (NoDup (columns df) -> NoDup (columns out)) /\
  Forall (fun c => has_column out c = true)
         ["teff"; "log_teff"; "mass_est"; "log_mass"; "abs_mag_g"; "star_class";
          "prob_white_dwarf"; "prob_neutron_star"; "prob_black_hole"]%string /\
  has_column out "distance_pc" =
    (has_column df "distance_pc" || has_column df "parallax")%bool.
Proof.
  unfold process_gaia_csv. intros H.
  apply bind_Ok_inv in H as (u & _ & H).
  apply bind_Ok_inv in H as (d & Hc & H).
  apply clean_dataset_rows in Hc as (Hcols & _).
  apply derive_features_columns in H.
  assert (HP : has_column d "parallax" = has_column df "parallax").
  { unfold has_column at 1. rewrite Hcols. apply fill_missing_teff_parallax. }
  rewrite HP, Hcols, fill_missing_teff_columns in H.
  assert (E : columns out =
              fold_left add_column (written_columns (has_column df "parallax"))
                        (columns df)) by exact H.
  split; [exact E|]. rewrite E.
  split; [apply fold_add_column_incl|].
  split; [apply fold_add_column_NoDup|].
  split.
  - unfold has_column. rewrite E.
    repeat constructor; rewrite fold_add_column_has;
      destruct (has_column df "parallax"); reflexivity.
  - unfold has_column at 1. rewrite E, fold_add_column_has.
    fold (has_column df "distance_pc").
    destruct (has_column df "parallax"), (has_column df "distance_pc"); reflexivity.
Qed.

Lemma deriver_output_columns_witness :
  exists out,
    process_gaia_csv log10_series rng_low gaia_no_teff = Ok out /\
    columns out =
      ["ra"; "dec"; "phot_g_mean_mag"; "teff_gspphot"; "teff"; "log_teff"; "mass_est";
       "log_mass"; "abs_mag_g"; "star_class"; "prob_white_dwarf"; "prob_neutron_star";
       "prob_black_hole"]%string.
Proof.
  eexists. split; [vm_compute; reflexivity|].
  apply (deriver_output_columns log10_series rng_low gaia_no_teff).
  vm_compute. reflexivity.
Defined.

(** *** The ways the deriver fails *)

Lemma bind_Raise_inv {A B : Type} (m : result A) (k : A -> result B) (e : exn) :
  bind m k = Raise e -> m = Raise e \/ exists a, m = Ok a /\ k a = Raise e.
Proof.
  destruct m as [a|e']; simpl; intros H; [right; eauto|].
  left. injection H as ->. reflexivity.
Qed.

Lemma mapM_Raise_inv {A B : Type} (f : A -> result B) (l : list A) (e : exn) :
  mapM f l = Raise e -> exists x, In x l /\ f x = Raise e.
Proof.
  induction l as [|x l IH]; simpl; [discriminate|]. intros H.
  apply bind_Raise_inv in H as [H|(y & _ & H)]; [exists x; auto|].
  apply bind_Raise_inv in H as [H|(ys & _ & H)]; [|discriminate].
  destruct (IH H) as (x' & Hin & Hx'). exists x'. auto.
Qed.

Lemma assign_Raise_inv (col : string) (f : Row -> result value) (df : DataFrame)
      (e : exn) :
  assign col f df = Raise e -> exists r, In r (rows df) /\ f r = Raise e.
Proof.
  unfold assign. intros H. apply bind_Raise_inv in H as [H|(rs & _ & H)]; [|discriminate].
  apply mapM_Raise_inv in H as (r & Hin & H). exists r. split; [exact Hin|].
  apply bind_Raise_inv in H as [H|(v & _ & H)]; [exact H | discriminate].
Qed.

Definition is_type_error (e : exn) : Prop := exists msg, e = TypeError msg.

Lemma as_float_Raise (v : value) (e : exn) : as_float v = Raise e -> is_type_error e.
Proof. destruct v; simpl; [discriminate|]. intros [= <-]. eexists. reflexivity. Qed.

(** An element function built from numeric reads fails only with the
    [TypeError] of a read. *)
Ltac read_failed H :=
  unfold num in H;
  repeat (apply bind_Raise_inv in H as [H|(? & _ & H)];
          [exact (as_float_Raise _ _ H)|]);
  discriminate H.

Ltac assign_failed H :=
  let r := fresh "r" in
  apply assign_Raise_inv in H as (r & _ & H); read_failed H.

Lemma derive_features_Raise (log10 : float -> float) (df : DataFrame) (e : exn) :
  derive_features log10 df = Raise e -> is_type_error e.
Proof.
  unfold derive_features. intros H.
  apply bind_Raise_inv in H as [H|(d1 & _ & H)]; [assign_failed H|].
  apply bind_Raise_inv in H as [H|(d2 & _ & H)]; [assign_failed H|].
  apply bind_Raise_inv in H as [H|(d3 & _ & H)]; [assign_failed H|].
  apply bind_Raise_inv in H as [H|(d4 & _ & H)]; [assign_failed H|].
  apply bind_Raise_inv in H as [H|(d5 & _ & H)].
  { destruct (has_column d4 "parallax").
    - apply bind_Raise_inv in H as [H|(d5a & _ & H)]; assign_failed H.
    - assign_failed H. }
  apply bind_Raise_inv in H as [H|(d6 & _ & H)]; [assign_failed H|].
  apply bind_Raise_inv in H as [H|(d7 & _ & H)]; [assign_failed H|].
  apply bind_Raise_inv in H as [H|(d8 & _ & H)]; [assign_failed H|].
  apply bind_Raise_inv in H as [H|(d9 & _ & H)]; [assign_failed H|].
  discriminate.
Qed.

Lemma clean_dataset_Raise (df : DataFrame) (e : exn) :
  clean_dataset df = Raise e -> is_type_error e.
Proof.
  unfold clean_dataset. intros H.
  apply bind_Raise_inv in H as [H|(mask & _ & H)]; [|discriminate].
  apply mapM_Raise_inv in H as (r & _ & H). read_failed H.
Qed.

(** The message of the [ValueError] for a missing required column. *)
Definition missing_column_error (col : string) : exn :=
  ValueError ("Required column " ++ col ++ " not found in Gaia CSV.").

Lemma check_required_Raise (cols : list string) (df : DataFrame) (e : exn) :
  check_required cols df = Raise e ->
  exists before col after,
    cols = before ++ col :: after /\
    Forall (fun c => has_column df c = true) before /\
    has_column df col = false /\
    e = missing_column_error col.
Proof.
  induction cols as [|c cols IH]; simpl; [discriminate|].
  destruct (has_column df c) eqn:E.
  - intros H. destruct (IH H) as (before & col & after & -> & Hb & Hc & He).
    exists (c :: before), col, after. repeat split; auto.
  - intros [= <-]. exists [], c, cols. repeat split; auto.
Qed.

Lemma check_required_Ok (cols : list string) (df : DataFrame) (u : unit) :
  check_required cols df = Ok u -> Forall (fun c => has_column df c = true) cols.
Proof.
  induction cols as [|c cols IH]; simpl; [constructor|].
  destruct (has_column df c) eqn:E; [|discriminate]. intros H. constructor; auto.
Qed.

(** The deriver fails in two ways only.  When a required column ([ra],
    [dec], [phot_g_mean_mag], looked for in this order) is missing it raises
    the [ValueError] that names the first missing one, whatever else the table
    holds.  Otherwise it raises a [TypeError], and then some cell of the
    columns it reads is not a number. *)
Theorem deriver_failures (log10 : float -> float) (rng : RandomState)
        (df : DataFrame) (e : exn) :
  process_gaia_csv log10 rng df = Raise e ->
  (exists before col after,
      required_cols = before ++ col :: after /\
      Forall (fun c => has_column df c = true) before /\
      has_column df col = false /\
      e = missing_column_error col) \/
  (Forall (fun c => has_column df c = true) required_cols /\
   is_type_error e /\
   ~ Forall (numeric_cells input_columns) (rows df)).
Proof.
  unfold process_gaia_csv. intros H.
  apply bind_Raise_inv in H as [H|(u & Hu & H)].
  - left. now apply check_required_Raise.
  - right. apply check_required_Ok in Hu. split; [exact Hu|].
    assert (He : is_type_error e).
    { apply bind_Raise_inv in H as [H|(d & _ & H)].
      - now apply clean_dataset_Raise in H.
      - now apply derive_features_Raise in H. }
    split; [exact He|]. intros Hnum.
    destruct (process_gaia_csv_total log10 rng df Hu Hnum) as (out & Hout).
    unfold process_gaia_csv in Hout.
    destruct (check_required required_cols df) as [u'|]; [|discriminate].
    destruct u, u'. cbn [bind] in Hout. rewrite H in Hout. discriminate.
Qed.

(** A table without a [dec] column, and one whose temperature is text. *)
Definition gaia_no_dec : DataFrame :=
  mkDataFrame ["ra"; "phot_g_mean_mag"; "teff_gspphot"]%string
    [ [("ra", VFloat 1.0); ("phot_g_mean_mag", VFloat 12.5);
       ("teff_gspphot", VFloat 5000)]%string ].

Lemma deriver_failures_witness :
  process_gaia_csv log10_series rng_low gaia_no_dec = Raise (missing_column_error "dec") /\
  ((exists before col after,
       required_cols = before ++ col :: after /\
       Forall (fun c => has_column gaia_no_dec c = true) before /\
       has_column gaia_no_dec col = false /\
       missing_column_error "dec" = missing_column_error col) \/
   (Forall (fun c => has_column gaia_no_dec c = true) required_cols /\
    is_type_error (missing_column_error "dec") /\
    ~ Forall (numeric_cells input_columns) (rows gaia_no_dec))).
Proof.
  split; [reflexivity|].
  exact (deriver_failures log10_series rng_low gaia_no_dec
           (missing_column_error "dec") eq_refl).
Defined.

End DeriverMore.

(* ================================================================== *)
(** ** [src/train_model_gaia.py]: the labels and features made of the
       deriver's table *)

Module TrainModelGaia.
Import ProcessGaia.
Local Arguments cell : simpl never.

Definition choose_feature_columns (df : DataFrame) : list string :=
  let candidates := ["mass_est"; "teff"; "abs_mag_g"; "mh_gspphot"; "metallicity"] in
  let features := filter (has_column df) candidates in
  if List.length features <? 2
  then features ++ filter (has_column df) ["log_mass"; "log_teff"]
  else features.

Definition label_for_mass (m : float) : string :=
  if (m <? 8)%float then "white_dwarf"
  else if (m <? 20)%float then "neutron_star"
  else "black_hole".

Definition no_mass_est_message : string :=
  "Input CSV must contain 'mass_est' column (estimated mass).".

Definition no_features_message : string :=
  "No suitable feature columns found in CSV. Expected one of mass_est, teff, abs_mag_g, mh_gspphot, metallicity, log_mass, log_teff.".

(** [prepare_data] from the table read to [feature_cols] and [df_clean]; the
    numeric conversion, label encoding and scaling that follow are pandas'
    and scikit-learn's. *)
Definition prepare_data_clean (df : DataFrame) : result (list string * DataFrame) :=
  if negb (has_column df "mass_est") then Raise (ValueError no_mass_est_message)
  else
    df <- assign "label"
            (fun r => m <- as_float (cell r "mass_est") ;;
                      Ok (VStr (label_for_mass m))) df ;;
    let feature_cols := choose_feature_columns df in
    match feature_cols with
    | [] => Raise (ValueError no_features_message)
    | _ :: _ => Ok (feature_cols, dropna (feature_cols ++ ["label"]) df)
    end.

(** *** Labels *)

(** The label of a mass names the endpoint to which
    [estimate_evolution_probs] gives the greatest probability. *)
Theorem label_is_likeliest_endpoint (m : float) :
  let p := estimate_evolution_probs m in
  let wd := fst (fst p) in
  let ns := snd (fst p) in
  let bh := snd p in
  (label_for_mass m = "white_dwarf" /\ (ns <? wd)%float = true /\ (bh <? wd)%float = true) \/
  (label_for_mass m = "neutron_star" /\ (wd <? ns)%float = true /\ (bh <? ns)%float = true) \/
  (label_for_mass m = "black_hole" /\ (wd <? bh)%float = true /\ (ns <? bh)%float = true).
Proof.
  unfold label_for_mass, estimate_evolution_probs.
  destruct (m <? 8)%float; [left; repeat split; reflexivity|].
  destruct (m <? 20)%float; right; [left | right]; repeat split; reflexivity.
Qed.

(** No record of the deriver's table is labelled [black_hole]: the label of
    its [mass_est] is [white_dwarf], or [neutron_star] when the estimate is
    10.0. *)
Theorem deriver_labels (log10 : float -> float) (rng : RandomState)
        (df out : DataFrame) :
  process_gaia_csv log10 rng df = Ok out ->
  Forall (fun r' =>
            exists m, cell r' "mass_est" = VFloat m /\
                      (label_for_mass m = "white_dwarf" \/
                       (label_for_mass m = "neutron_star" /\ m = 10.0%float)))
         (rows out).
Proof.
  intros H. apply DeriverFacts.process_gaia_csv_records in H.
  revert H. apply Forall_impl.
  intros r' (r & _ & teff & _ & _ & _ & Hm & _).
  exists (estimate_mass_from_teff teff). split; [exact Hm|].
  unfold estimate_mass_from_teff.
  repeat match goal with |- context [if ?b then _ else _] => destruct b end;
    first [left; reflexivity | right; split; reflexivity].
Qed.

Lemma deriver_labels_witness :
  exists out,
    process_gaia_csv DeriverFacts.log10_series DeriverFacts.rng_low
                     DeriverFacts.gaia_two_stars = Ok out /\
    Forall (fun r' =>
              exists m, cell r' "mass_est" = VFloat m /\
                        (label_for_mass m = "white_dwarf" \/
                         (label_for_mass m = "neutron_star" /\ m = 10.0%float)))
           (rows out).
Proof.
  eexists. split; [vm_compute; reflexivity|].
  apply (deriver_labels DeriverFacts.log10_series DeriverFacts.rng_low
                        DeriverFacts.gaia_two_stars).
  vm_compute. reflexivity.
Defined.

(** *** Features and cleaning *)

(** The features chosen are columns of the table, without repetition;
    [mass_est] is one of them whenever it is a column, and the logarithmic
    fallback columns are used only when fewer than two of the five candidate
    columns exist. *)
Theorem chosen_features (df : DataFrame) :
  let features := choose_feature_columns df in
  Forall (fun c => has_column df c = true) features /\
  NoDup features /\
  (has_column df "mass_est" = true -> In "mass_est" features) /\
  (In "log_mass" features \/ In "log_teff" features ->
   List.length (filter (has_column df)
                       ["mass_est"; "teff"; "abs_mag_g"; "mh_gspphot"; "metallicity"]) < 2).
Proof.
  unfold choose_feature_columns. cbn [filter].
  destruct (has_column df "mass_est") eqn:E1, (has_column df "teff") eqn:E2,
           (has_column df "abs_mag_g") eqn:E3, (has_column df "mh_gspphot") eqn:E4,
           (has_column df "metallicity") eqn:E5,
           (has_column df "log_mass") eqn:E6, (has_column df "log_teff") eqn:E7;
    cbn [List.length Nat.ltb Nat.leb app];
    (split; [repeat constructor; assumption|]);
    (split; [repeat constructor; simpl; intuition discriminate|]);
    (split; [intros; simpl; tauto || discriminate|]);
    simpl; intros [H|H]; try lia; intuition discriminate.
Qed.

Lemma filter_none {A : Type} (p : A -> bool) (l : list A) :
  Forall (fun x => p x = false) l -> filter p l = [].
Proof. induction 1 as [|x l Hx _ IH]; simpl; [reflexivity|]. now rewrite Hx. Qed.

Lemma isna_in_subset (r : Row) (subset : list string) (c : string) :
  In c subset -> isna (cell r c) = true ->
  negb (existsb (fun c => isna (cell r c)) subset) = false.
Proof.
  intros Hin Hna. apply negb_false_iff, existsb_exists. exists c. auto.
Qed.

(** What [prepare_data] does before the scaling.  Without a [mass_est]
    column it raises the [ValueError] that says so; its second [ValueError],
    for an empty feature list, is never raised.  When it goes on, [mass_est]
    is among the features, and every record of [df_clean] has a label and no
    missing value in any feature column. *)
Theorem prepare_data_outcomes (df : DataFrame) :
  (has_column df "mass_est" = false ->
   prepare_data_clean df = Raise (ValueError no_mass_est_message)) /\
  prepare_data_clean df <> Raise (ValueError no_features_message) /\
  (forall feature_cols df_clean,
      prepare_data_clean df = Ok (feature_cols, df_clean) ->
      In "mass_est" feature_cols /\
      Forall (fun r => (exists m, cell r "mass_est" = VFloat m /\
                                  cell r "label" = VStr (label_for_mass m)) /\
                       Forall (fun c => isna (cell r c) = false) feature_cols)
             (rows df_clean)).
Proof.
  unfold prepare_data_clean. split; [intros ->; reflexivity|].
  destruct (has_column df "mass_est") eqn:Hm; cbn [negb].
  2:{ split; [discriminate|]. intros fc dc [=]. }
  destruct (assign "label"
              (fun r => m <- as_float (cell r "mass_est") ;;
                        Ok (VStr (label_for_mass m))) df) as [d|e] eqn:Ha;
    cbn [bind].
  2:{ split; [|intros fc dc [=]].
      intros [= ->]. apply DeriverMore.assign_Raise_inv in Ha as (r & _ & Ha).
      apply DeriverMore.bind_Raise_inv in Ha as [Ha|(m & _ & Ha)]; [|discriminate].
      apply DeriverMore.as_float_Raise in Ha as (msg & [=]). }
  apply assign_inv in Ha as (Hcols & Hrows).
  assert (Hin : In "mass_est" (choose_feature_columns d)).
  { apply (chosen_features d). unfold has_column. rewrite Hcols, has_column_add.
    exact Hm. }
  destruct (choose_feature_columns d) as [|c fc] eqn:Hfc; [destruct Hin|].
  split; [discriminate|]. intros fc' dc [= <- <-].
  split; [exact Hin|]. cbn [dropna rows].
  apply Forall_forall. intros r Hr. apply filter_In in Hr as (Hr & Hna).
  apply negb_true_iff in Hna.
  change (c :: fc ++ ["label"]) with ((c :: fc) ++ ["label"]) in Hna.
  rewrite existsb_app in Hna.
  apply orb_false_elim in Hna as (Hna & _).
  split.
  - apply (Forall2_Forall_r _ (fun r => exists m, cell r "mass_est" = VFloat m /\
                                        cell r "label" = VStr (label_for_mass m))
                            _ _) in Hrows.
    + rewrite Forall_forall in Hrows. now apply Hrows.
    + intros r0 r1 (v & Hv & ->). rewrite !cell_set. cbn [String.eqb Ascii.eqb Bool.eqb].
      destruct (cell r0 "mass_est") as [m|]; [|discriminate]. simpl in Hv.
      injection Hv as <-. eauto.
  - apply Forall_forall. intros c' Hc'.
    destruct (isna (cell r c')) eqn:E; [|reflexivity].
    assert (existsb (fun c0 => isna (cell r c0)) (c :: fc) = true); [|congruence].
    apply existsb_exists. eauto.
Qed.

(** The deriver's table always passes [prepare_data]'s checks: the features
    chosen are [mass_est], [teff] and [abs_mag_g] (with the metallicity
    columns the table has) and never the logarithmic fallbacks.  Since
    [abs_mag_g] is a feature, [df_clean] keeps no record without an absolute
    magnitude: when the Gaia table had no [parallax] column, [df_clean] is
    empty. *)
Theorem prepare_data_after_deriver (log10 : float -> float) (rng : RandomState)
        (df out : DataFrame) :
  process_gaia_csv log10 rng df = Ok out ->
  exists feature_cols df_clean,
    prepare_data_clean out = Ok (feature_cols, df_clean) /\
    incl ["mass_est"; "teff"; "abs_mag_g"] feature_cols /\
    ~ In "log_mass" feature_cols /\ ~ In "log_teff" feature_cols /\
    Forall (fun r => isna (cell r "abs_mag_g") = false) (rows df_clean) /\
    (has_column df "parallax" = false -> rows df_clean = []).
Proof.
  intros H.
  pose proof (DeriverMore.process_gaia_csv_columns _ _ _ _ H) as Hcols.
  pose proof (DeriverFacts.process_gaia_csv_records _ _ _ _ H) as Hrec.
  assert (Hhas : forall c, In c ["mass_est"; "teff"; "abs_mag_g"] ->
                           has_column out c = true).
  { intros c Hc. unfold has_column. rewrite Hcols, DeriverMore.fold_add_column_has.
    simpl in Hc. destruct Hc as [<-|[<-|[<-|[]]]];
      destruct (has_column df "parallax"); reflexivity. }
  unfold prepare_data_clean. rewrite (Hhas "mass_est") by (simpl; tauto). cbn [negb].
  destruct (assign_step "label"
              (fun r => m <- as_float (cell r "mass_est") ;;
                        Ok (VStr (label_for_mass m))) out
              (fun r' => exists r, DeriverFacts.clean_record r /\
                                   DeriverFacts.derived log10 (has_column df "parallax") r r')
              (fun r' => has_column df "parallax" = false ->
                         cell r' "abs_mag_g" = VFloat nan) Hrec)
    as (d & Hd & Hdcols & Hdrows).
  { intros r' (r & _ & teff & _ & _ & _ & Hm & _ & _ & _ & _ & Hab).
    rewrite Hm. simpl. eexists. split; [reflexivity|].
    intros Hp. rewrite Hp in Hab. rewrite cell_set. exact Hab. }
  rewrite Hd. cbn [bind].
  assert (Hd3 : forall c, In c ["mass_est"; "teff"; "abs_mag_g"] ->
                          has_column d c = true).
  { intros c Hc. unfold has_column. rewrite Hdcols, has_column_add.
    apply orb_true_iff. right. exact (Hhas c Hc). }
  assert (Hfc : choose_feature_columns d =
                ["mass_est"; "teff"; "abs_mag_g"]
                  ++ filter (has_column d) ["mh_gspphot"; "metallicity"]).
  { unfold choose_feature_columns. cbn [filter].
    rewrite (Hd3 "mass_est"), (Hd3 "teff"), (Hd3 "abs_mag_g") by (simpl; tauto).
    destruct (has_column d "mh_gspphot"), (has_column d "metallicity"); reflexivity. }
  rewrite Hfc. cbn [app].
  eexists _, _. split; [reflexivity|].
  assert (Habs : In "abs_mag_g"
                    (("mass_est" :: "teff" :: "abs_mag_g"
                        :: filter (has_column d) ["mh_gspphot"; "metallicity"])
                       ++ ["label"])) by (simpl; tauto).
  split; [intros c Hc; simpl in Hc; simpl; tauto|].
  split; [|split; [|split]].
  - cbn [filter]. destruct (has_column d "mh_gspphot"), (has_column d "metallicity");
      simpl; intuition discriminate.
  - cbn [filter]. destruct (has_column d "mh_gspphot"), (has_column d "metallicity");
      simpl; intuition discriminate.
  - cbn [dropna rows]. apply Forall_forall. intros r Hr.
    apply filter_In in Hr as (_ & Hna).
    destruct (isna (cell r "abs_mag_g")) eqn:E; [|reflexivity].
    pose proof (eq_trans (eq_sym (isna_in_subset r _ "abs_mag_g" Habs E)) Hna) as Hno.
    discriminate Hno.
  - intros Hp. cbn [dropna rows]. apply filter_none.
    revert Hdrows. apply Forall_impl. intros r Hr.
    apply (isna_in_subset r _ "abs_mag_g" Habs). rewrite (Hr Hp). reflexivity.
Qed.

Lemma prepare_data_after_deriver_witness :
  exists out feature_cols df_clean,
    process_gaia_csv DeriverFacts.log10_series DeriverFacts.rng_low
                     DeriverFacts.gaia_two_stars = Ok out /\
    prepare_data_clean out = Ok (feature_cols, df_clean) /\
    feature_cols = ["mass_est"; "teff"; "abs_mag_g"] /\
    List.length (rows df_clean) = 1.
Proof.
  assert (Hout : exists out,
             process_gaia_csv DeriverFacts.log10_series DeriverFacts.rng_low
                              DeriverFacts.gaia_two_stars = Ok out)
    by (eexists; vm_compute; reflexivity).
  destruct Hout as (out & Hout).
  destruct (prepare_data_after_deriver DeriverFacts.log10_series DeriverFacts.rng_low
              DeriverFacts.gaia_two_stars out Hout) as (fc & dc & Hp & _).
  exists out, fc, dc. split; [exact Hout|]. split; [exact Hp|].
  vm_compute in Hout. injection Hout as <-.
  vm_compute in Hp. injection Hp as <- <-. split; reflexivity.
Defined.

End TrainModelGaia.

(* ================================================================== *)
(** ** More on the loader and the radius search *)

Module CrossmatchMore.
Import CrossmatchDebug CrossmatchFacts.
Local Arguments cell : simpl never.

(** *** The outcomes of [load_table] *)

(** [c] is the first name of [candidates] that is a column of [df]. *)
Definition first_present (df : DataFrame) (candidates : list string) (c : string) : Prop :=
  exists before after,
    candidates = before ++ c :: after /\
    has_column df c = true /\
    Forall (fun x => has_column df x = false) before.

Lemma find_first_present (df : DataFrame) (candidates : list string) :
  match find (has_column df) candidates with
  | Some c => first_present df candidates c
  | None => Forall (fun x => has_column df x = false) candidates
  end.
Proof.
  induction candidates as [|x l IH]; simpl; [constructor|].
  destruct (has_column df x) eqn:E.
  - exists [], l. auto.
  - destruct (find (has_column df) l) as [c|].
    + destruct IH as (before & after & -> & Hc & Hb).
      exists (x :: before), after. auto.
    + constructor; assumption.
Qed.

Lemma first_present_find (df : DataFrame) (candidates : list string) (c : string) :
  first_present df candidates c -> find (has_column df) candidates = Some c.
Proof.
  intros (before & after & -> & Hc & Hb).
  induction Hb as [|x before Hx _ IH]; simpl; [now rewrite Hc | now rewrite Hx].
Qed.

Definition columns_not_found_message (which : string) : string :=
  "Could not find RA/DEC columns in " ++ which ++
  ". Tried ['ra', 'RA', 'RAJ2000', 'ra_deg', 'ra_deg'] & " ++
  "['dec', 'DEC', 'DEJ2000', 'dec_deg', 'dec_deg'].".

Section Loader.
Variable float_of_string : string -> option float.

(** The test of [mask_good] on one record. *)
Definition good_position (ra_col dec_col : string) (r : Row) : bool :=
  notnull (to_numeric_coerce float_of_string (cell r ra_col))
  && notnull (to_numeric_coerce float_of_string (cell r dec_col)).

Lemma astype_float_total (v : value) :
  notnull (to_numeric_coerce float_of_string v) = true ->
  astype_float float_of_string v = Ok (VFloat (to_numeric_coerce float_of_string v)).
Proof.
  destruct v as [f|s]; simpl; [reflexivity|].
  destruct (float_of_string s); [reflexivity | discriminate].
Qed.

Lemma add_column_present (cols : list string) (c : string) :
  existsb (String.eqb c) cols = true -> add_column cols c = cols.
Proof. unfold add_column. now intros ->. Qed.

Lemma kept_rows (ra_col dec_col : string) (df : DataFrame) :
  rows (if 0 <? List.length
                  (filter negb (map (good_position ra_col dec_col) (rows df)))
        then mkDataFrame (columns df)
                         (select_mask (rows df)
                                      (map (good_position ra_col dec_col) (rows df)))
        else df)
  = filter (good_position ra_col dec_col) (rows df).
Proof.
  destruct (0 <? _) eqn:E; cbn [rows].
  - apply select_mask_map.
  - apply Nat.ltb_ge in E. rewrite <- select_mask_map. symmetry.
    apply mask_all_good; [apply length_map | lia].
Qed.

(** [load_table] has three outcomes.  Without the file it raises
    [FileNotFoundError]; when no RA candidate or no Dec candidate is a column
    it raises [ValueError]; otherwise it returns, with the first candidate
    present of each list as the position columns, the same column names, and
    exactly the records that pass the numeric test, in their order: the
    conversion to float cannot fail on them. *)
Theorem load_table_outcomes (fs : FileSystem) (path which : string) :
  match fs path with
  | None =>
      load_table float_of_string fs path which =
      Raise (FileNotFoundError (which ++ " file not found: " ++ path))
  | Some df =>
      ((Forall (fun c => has_column df c = false) RA_CANDIDATES \/
        Forall (fun c => has_column df c = false) DEC_CANDIDATES) /\
       load_table float_of_string fs path which =
       Raise (ValueError (columns_not_found_message which))) \/
      (exists ra_col dec_col df',
          first_present df RA_CANDIDATES ra_col /\
          first_present df DEC_CANDIDATES dec_col /\
          load_table float_of_string fs path which = Ok (df', ra_col, dec_col) /\
          columns df' = columns df /\
          Forall2 (fun r r' =>
                     r' = row_set
                            (row_set r ra_col
                               (VFloat (to_numeric_coerce float_of_string (cell r ra_col))))
                            dec_col
                            (VFloat (to_numeric_coerce float_of_string (cell r dec_col))))
                  (filter (good_position ra_col dec_col) (rows df)) (rows df'))
  end.
Proof.
  unfold load_table. destruct (fs path) as [df|]; [|reflexivity].
  unfold find_ra_dec_cols.
  pose proof (find_first_present df RA_CANDIDATES) as Hra.
  pose proof (find_first_present df DEC_CANDIDATES) as Hdec.
  destruct (find (has_column df) RA_CANDIDATES) as [ra|];
    [|left; split; [left; exact Hra | destruct (find _ DEC_CANDIDATES); reflexivity]].
  destruct (find (has_column df) DEC_CANDIDATES) as [dec|];
    [|left; split; [right; exact Hdec | reflexivity]].
  right. exists ra, dec.
  fold (good_position ra dec).
  set (d0 := if 0 <? _ then _ else df).
  assert (Hrows0 : rows d0 = filter (good_position ra dec) (rows df))
    by apply kept_rows.
  assert (Hcols0 : columns d0 = columns df) by (subst d0; destruct (0 <? _); reflexivity).
  assert (Hgood : Forall (fun r => good_position ra dec r = true) (rows d0)).
  { rewrite Hrows0. apply Forall_forall. intros r Hr. now apply filter_In in Hr. }
  set (Q1 := fun r' : Row =>
               exists r, good_position ra dec r = true /\
                         r' = row_set r ra
                                (VFloat (to_numeric_coerce float_of_string (cell r ra)))).
  destruct (assign_step ra (fun r => astype_float float_of_string (cell r ra)) d0
              (fun r => good_position ra dec r = true) Q1 Hgood)
    as (d1 & H1 & C1 & R1).
  { intros r Hr. unfold good_position in Hr. apply andb_prop in Hr as (Hr1 & Hr2).
    rewrite (astype_float_total _ Hr1). eexists. split; [reflexivity|].
    exists r. split; [|reflexivity]. unfold good_position. now rewrite Hr1, Hr2. }
  assert (Hdec1 : forall r,
             good_position ra dec r = true ->
             notnull (to_numeric_coerce float_of_string
                        (cell (row_set r ra
                                 (VFloat (to_numeric_coerce float_of_string (cell r ra))))
                              dec)) = true /\
             to_numeric_coerce float_of_string
               (cell (row_set r ra
                        (VFloat (to_numeric_coerce float_of_string (cell r ra)))) dec)
             = to_numeric_coerce float_of_string (cell r dec)).
  { intros r Hr. unfold good_position in Hr. apply andb_prop in Hr as (Hr1 & Hr2).
    rewrite cell_set. destruct (String.eqb_spec ra dec) as [->|_]; auto. }
  destruct (assign_step dec (fun r => astype_float float_of_string (cell r dec)) d1
              Q1 (fun _ => True) R1) as (d2 & H2 & C2 & _).
  { intros r' (r & Hr & ->). destruct (Hdec1 r Hr) as (Hn & _).
    rewrite (astype_float_total _ Hn). eauto. }
  exists d2. split; [exact Hra|]. split; [exact Hdec|].
  rewrite H1. cbn [bind]. rewrite H2. cbn [bind]. split; [reflexivity|].
  destruct Hra as (? & ? & _ & Hhra & _). destruct Hdec as (? & ? & _ & Hhdec & _).
  split.
  - rewrite C2, C1, Hcols0.
    rewrite (add_column_present _ ra Hhra). apply (add_column_present _ dec Hhdec).
  - rewrite <- Hrows0.
    apply assign_inv in H1 as (_ & F1). apply assign_inv in H2 as (_ & F2).
    pose proof (Forall2_compose _ _ _ _ _ F1 F2) as F.
    eapply Forall2_weaken; [|exact (Forall2_Forall_l _ _ _ _ Hgood F)].
    cbv beta. intros r r'' (Hr & r' & (v1 & Hv1 & ->) & (v2 & Hv2 & ->)).
    pose proof Hr as Hr'. unfold good_position in Hr'.
    apply andb_prop in Hr' as (Hr1 & _).
    rewrite (astype_float_total _ Hr1) in Hv1. injection Hv1 as <-.
    destruct (Hdec1 r Hr) as (Hn & He).
    rewrite (astype_float_total _ Hn), He in Hv2. injection Hv2 as <-. reflexivity.
Qed.

End Loader.

(** *** When the radius search succeeds *)

Lemma nunique_incl (l1 l2 : list nat) : incl l1 l2 -> nunique l1 <= nunique l2.
Proof.
  intros H. unfold nunique. apply NoDup_incl_length; [apply NoDup_nodup|].
  intros x Hx. apply nodup_In. apply H. now apply nodup_In in Hx.
Qed.

Lemma nunique_zero (l : list nat) : nunique l = 0 -> l = [].
Proof.
  destruct l as [|x l]; [reflexivity|]. intros H.
  pose proof (nunique_pos (x :: l)) as Hp. assert (x :: l <> []) by discriminate.
  specialize (Hp H0). lia.
Qed.

Section Run.
Variable separation : SkyPoint -> SkyPoint -> float.
Variable float_of_string : string -> option float.
Variables c_gaia c_sdss : SkyCoord.

Definition has_pairs (r : float) : Prop :=
  SkyCoord_search_around_sky separation c_gaia c_sdss r <> [].

Lemma unique_first_pos (r : float) :
  has_pairs r <-> 0 < unique_first separation c_gaia c_sdss r.
Proof.
  unfold has_pairs, unique_first. split.
  - intros H. apply nunique_pos. intros E. apply map_eq_nil in E. contradiction.
  - intros H E. rewrite E in H. simpl in H. rewrite nunique_nil in H. lia.
Qed.

Lemma matches_at_within (r : float) :
  Forall (fun row => (sep_arcsec row <=? r)%float = true)
         (matches_at separation c_gaia c_sdss r).
Proof.
  unfold matches_at, SkyCoord_search_around_sky. apply Forall_forall.
  intros row Hrow. apply in_map_iff in Hrow as (((i & j) & s) & <- & Hin).
  apply search_around_sky_spec in Hin as (p & q & _ & _ & _ & Hs). exact Hs.
Qed.

(** What the part after the loop returns, from the state the loop leaves. *)
Lemma conclude_selected (gaia : DataFrame) (radii : list float) :
  let run := conclude gaia (search_radii separation c_gaia c_sdss radii) in
  (Exists has_pairs radii ->
   exists r m, In r radii /\ has_pairs r /\ snd run = Ok m /\
               out_df m = matches_at separation c_gaia c_sdss r /\
               In (BestRadiusChosen (Some r) (unique_first separation c_gaia c_sdss r)
                                    (List.length (out_df m))) (fst run)) /\
  (forall m, snd run = Ok m -> Exists has_pairs radii).
Proof.
  intros run. subst run.
  pose proof (search_radii_selected separation c_gaia c_sdss radii) as (Hmax & Hsel).
  unfold conclude.
  destruct (best_radius (search_radii separation c_gaia c_sdss radii)) as [r|] eqn:Hr.
  - destruct Hsel as (Hpos & Hm & i & Hi & Hu & _). rewrite Hm.
    destruct (best_count _ =? 0) eqn:E; [apply Nat.eqb_eq in E; lia|].
    assert (Hin : In r radii) by (eapply nth_error_In; exact Hi).
    assert (Hp : has_pairs r) by (apply unique_first_pos; lia).
    split.
    + intros _. eexists r, _. split; [exact Hin|]. split; [exact Hp|].
      cbn [fst snd out_df]. split; [reflexivity|]. split; [reflexivity|].
      apply in_or_app. right. left. rewrite Hu. reflexivity.
    + intros m _. apply Exists_exists. eauto.
  - destruct Hsel as (Hzero & Hm). rewrite Hm. split.
    + intros Hex. apply Exists_exists in Hex as (r & Hin & Hp).
      apply unique_first_pos in Hp.
      assert (unique_first separation c_gaia c_sdss r
              <= list_max (map (unique_first separation c_gaia c_sdss) radii))
        by (apply list_max_In, in_map; exact Hin).
      lia.
    + intros m [=].
Qed.

(** Once both tables are loaded, with positions Astropy accepts, and for
    candidate radii from 0 to half a turn, [run_crossmatch] returns exactly
    when some candidate radius finds a pair (otherwise it raises).  What it
    returns is the pair table of one of the candidate radii, the one it prints
    as best: it is not empty and every pair in it is within that radius. *)
Theorem run_crossmatch_succeeds_iff
        (fs : FileSystem) (gaia_csv sdss_csv : string) (radii : list float)
        (gaia sdss : DataFrame) (gra gdec sra sdec : string) :
  load_table float_of_string fs gaia_csv "Gaia" = Ok (gaia, gra, gdec) ->
  load_table float_of_string fs sdss_csv "SDSS" = Ok (sdss, sra, sdec) ->
  sky_coords gaia gra gdec = Ok c_gaia ->
  sky_coords sdss sra sdec = Ok c_sdss ->
  Forall (fun p => valid_position p = true) c_gaia ->
  Forall (fun p => valid_position p = true) c_sdss ->
  Forall (fun r => valid_radius r = true) radii ->
  let run := run_crossmatch separation float_of_string fs gaia_csv sdss_csv radii in
  (Exists has_pairs radii <-> exists m, snd run = Ok m) /\
  (forall m, snd run = Ok m ->
             out_df m <> [] /\
             exists r, In r radii /\
                       out_df m = matches_at separation c_gaia c_sdss r /\
                       Forall (fun row => (sep_arcsec row <=? r)%float = true) (out_df m) /\
                       In (BestRadiusChosen
                             (Some r) (unique_first separation c_gaia c_sdss r)
                             (List.length (out_df m))) (fst run)).
Proof.
  intros Hg Hs Hcg Hcs _ _ _ run. subst run. unfold run_crossmatch.
  rewrite Hg, Hs, Hcg, Hcs.
  destruct (conclude_selected gaia radii) as (Hyes & Hno).
  split; [split|].
  - intros Hex. destruct (Hyes Hex) as (r & m & _ & _ & Hm & _). eauto.
  - intros (m & Hm). eauto.
  - intros m Hm. destruct (Hyes (Hno m Hm)) as (r & m' & Hin & Hp & Hm' & Hout & Hline).
    rewrite Hm in Hm'. injection Hm' as <-. split.
    + rewrite Hout. unfold matches_at. intros E. apply map_eq_nil in E. contradiction.
    + exists r. split; [exact Hin|]. split; [exact Hout|].
      split; [rewrite Hout; apply matches_at_within | exact Hline].
Qed.

(** For positions Astropy accepts and candidate radii from 0 to half a
    turn: when one of the candidate radii is at least as large as all of them
    (the last one of an ascending list), the best count of the loop is the
    count of that largest radius: the loop keeps the earliest radius that
    already counts as many as the largest one does. *)
Theorem largest_radius_best_count (radii : list float) (r_max : float) :
  Forall (fun p => valid_position p = true) c_gaia ->
  Forall (fun p => valid_position p = true) c_sdss ->
  Forall (fun r => valid_radius r = true) radii ->
  In r_max radii ->
  Forall (fun r => (r <=? r_max)%float = true) radii ->
  let st := search_radii separation c_gaia c_sdss radii in
  best_count st = unique_first separation c_gaia c_sdss r_max /\
  (has_pairs r_max ->
   exists r, best_radius st = Some r /\ In r radii /\
             unique_first separation c_gaia c_sdss r =
             unique_first separation c_gaia c_sdss r_max).
Proof.
  intros _ _ _ Hin Hle st. subst st.
  pose proof (search_radii_selected separation c_gaia c_sdss radii) as (Hmax & Hsel).
  assert (Hmono : forall r, In r radii ->
                            unique_first separation c_gaia c_sdss r <=
                            unique_first separation c_gaia c_sdss r_max).
  { intros r Hr. rewrite Forall_forall in Hle. specialize (Hle r Hr).
    unfold unique_first, SkyCoord_search_around_sky. apply nunique_incl.
    intros i Hi. apply in_map_iff in Hi as (((i' & j) & s) & <- & Ht).
    apply search_around_sky_spec in Ht as (p & q & Hp & Hq & -> & Hs).
    apply in_map_iff. exists (i', j, separation p q). split; [reflexivity|].
    apply search_around_sky_spec. exists p, q.
    repeat split; try assumption. exact (F64.leb_trans _ _ _ Hs Hle). }
  assert (Hbest : best_count (search_radii separation c_gaia c_sdss radii) =
                  unique_first separation c_gaia c_sdss r_max).
  { rewrite Hmax. apply Nat.le_antisymm.
    - apply list_max_le, Forall_forall. intros n Hn.
      apply in_map_iff in Hn as (r & <- & Hr). now apply Hmono.
    - apply list_max_In, in_map. exact Hin. }
  split; [exact Hbest|]. intros Hp. apply unique_first_pos in Hp.
  destruct (best_radius (search_radii separation c_gaia c_sdss radii)) as [r|].
  - destruct Hsel as (_ & _ & i & Hi & Hu & _). exists r.
    split; [reflexivity|]. split; [eapply nth_error_In; exact Hi | congruence].
  - destruct Hsel as (Hz & _). lia.
Qed.

End Run.

Lemma largest_radius_best_count_witness :
  best_count (search_radii equatorial_separation gaia_pair sdss_pair
                           [1.0; 2.0; 5.0; 10.0]%float)
  = unique_first equatorial_separation gaia_pair sdss_pair 10.0%float.
Proof.
  apply (largest_radius_best_count equatorial_separation gaia_pair sdss_pair
           [1.0; 2.0; 5.0; 10.0]%float 10.0%float).
  - repeat constructor.
  - repeat constructor.
  - repeat constructor.
  - simpl. tauto.
  - repeat constructor.
Defined.

Lemma run_crossmatch_succeeds_iff_witness :
  exists m,
    snd (run_crossmatch equatorial_separation (fun _ => None)
           (fs_catalogs (positions_table gaia_pair) (positions_table sdss_pair))
           "data/raw/gaia_sample.csv" "data/raw/sdss_stars.csv" [1.0; 2.0]%float)
    = Ok m.
Proof.
  apply (run_crossmatch_succeeds_iff equatorial_separation (fun _ => None)
           gaia_pair sdss_pair
           (fs_catalogs (positions_table gaia_pair) (positions_table sdss_pair))
           "data/raw/gaia_sample.csv" "data/raw/sdss_stars.csv" [1.0; 2.0]%float
           (positions_table gaia_pair) (positions_table sdss_pair)
           "ra" "dec" "ra" "dec"); try reflexivity; try (repeat constructor; fail).
  apply Exists_cons_hd. unfold has_pairs. vm_compute. discriminate.
Defined.

(** *** The unmatched Gaia records *)

(** On success, [gaia_unmatched.csv] holds exactly the Gaia records whose
    position does not occur in the [idx_gaia] column of the pair table, in
    their order: every Gaia record is either indexed by that column or
    written as unmatched. *)
Theorem unmatched_records
        (separation : SkyPoint -> SkyPoint -> float)
        (float_of_string : string -> option float)
        (fs : FileSystem) (gaia_csv sdss_csv : string) (radii : list float)
        (gaia : DataFrame) (gra gdec : string) (m : Matched) :
  load_table float_of_string fs gaia_csv "Gaia" = Ok (gaia, gra, gdec) ->
  snd (run_crossmatch separation float_of_string fs gaia_csv sdss_csv radii) = Ok m ->
  gaia_unmatched m =
    map snd (filter (fun ir => negb (existsb (Nat.eqb (fst ir)) (map idx_gaia (out_df m))))
                    (enumerate (rows gaia))) /\
  (forall i g, nth_error (rows gaia) i = Some g ->
               In i (map idx_gaia (out_df m)) \/ In g (gaia_unmatched m)) /\
  (forall g, In g (gaia_unmatched m) ->
             exists i, nth_error (rows gaia) i = Some g /\
                       ~ In i (map idx_gaia (out_df m))) /\
  List.length (gaia_unmatched m) <= List.length (rows gaia).
Proof.
  intros Hg. unfold run_crossmatch. rewrite Hg.
  destruct (load_table float_of_string fs sdss_csv "SDSS") as [[[sdss sra] sdec]|];
    [|discriminate].
  destruct (sky_coords gaia gra gdec) as [c_gaia|]; [|discriminate].
  destruct (sky_coords sdss sra sdec) as [c_sdss|]; [|discriminate].
  unfold conclude.
  destruct (best_matches _) as [bm|]; [|discriminate].
  destruct (best_count _ =? 0); [discriminate|]. cbn [snd].
  intros [= <-]. cbn [gaia_unmatched out_df].
  assert (Hmem : forall (i : nat) (l : list nat),
             existsb (Nat.eqb i) l = true <-> In i l).
  { intros i l. rewrite existsb_exists. split.
    - intros (x & Hx & E). apply Nat.eqb_eq in E. now subst.
    - intros H. exists i. split; [exact H | apply Nat.eqb_refl]. }
  split; [reflexivity|]. split; [|split].
  - intros i g Hi.
    destruct (existsb (Nat.eqb i) (map idx_gaia bm)) eqn:E.
    + left. now apply Hmem.
    + right. apply in_map_iff. exists (i, g). split; [reflexivity|].
      apply filter_In. split; [now apply In_enumerate|]. cbn [fst]. now rewrite E.
  - intros g Hgin. apply in_map_iff in Hgin as ((i & g') & <- & Hf).
    apply filter_In in Hf as (Hin & Hn). apply In_enumerate in Hin.
    exists i. split; [exact Hin|]. cbn [fst] in Hn. apply negb_true_iff in Hn.
    intros Hc. apply Hmem in Hc. congruence.
  - rewrite length_map.
    etransitivity; [apply List.filter_length_le|]. unfold enumerate.
    rewrite length_combine, length_seq. lia.
Qed.

Lemma unmatched_records_witness :
  exists m,
    snd (run_crossmatch equatorial_separation (fun _ => None)
           (fs_catalogs (positions_table [(180.0, 0.0); (190.0, 0.0)]%float)
                        (positions_table [(180.0001, 0.0)]%float))
           "data/raw/gaia_sample.csv" "data/raw/sdss_stars.csv" [1.0]%float) = Ok m /\
    gaia_unmatched m = [ [("ra", VFloat 190.0); ("dec", VFloat 0.0)] ].
Proof.
  eexists. split; [vm_compute; reflexivity|].
  apply (unmatched_records equatorial_separation (fun _ => None)
           (fs_catalogs (positions_table [(180.0, 0.0); (190.0, 0.0)]%float)
                        (positions_table [(180.0001, 0.0)]%float))
           "data/raw/gaia_sample.csv" "data/raw/sdss_stars.csv" [1.0]%float
           (positions_table [(180.0, 0.0); (190.0, 0.0)]%float) "ra" "dec");
    vm_compute; reflexivity.
Defined.

End CrossmatchMore.

(* ================================================================== *)
(** ** More on the nearest-neighbour cross-match *)

Module NearestMore.
Import Crossmatch NearestFacts.
Local Arguments cell : simpl never.

(** *** Prefixed columns *)

Lemma append_eqb (p a b : string) :
  String.eqb (p ++ a) (p ++ b) = String.eqb a b.
Proof.
  induction p as [|ch p IH]; simpl; [reflexivity|].
  now rewrite Ascii.eqb_refl.
Qed.

Lemma row_get_app (r1 r2 : Row) (c : string) :
  row_get (r1 ++ r2) c =
  match row_get r1 c with
  | Some v => Some v
  | None => row_get r2 c
  end.
Proof.
  induction r1 as [|[k v] r1 IH]; simpl; [reflexivity|].
  destruct (String.eqb k c); [reflexivity | exact IH].
Qed.

Lemma row_get_add_prefix (p : string) (r : Row) (c : string) :
  row_get (add_prefix p r) (p ++ c) = row_get r c.
Proof.
  induction r as [|[k v] r IH]; simpl; [reflexivity|].
  rewrite append_eqb. destruct (String.eqb k c); [reflexivity | exact IH].
Qed.

Lemma row_get_gaia_in_sdss (r : Row) (c : string) :
  row_get (add_prefix "sdss_" r) ("gaia_" ++ c) = None.
Proof. induction r as [|[k v] r IH]; simpl; [reflexivity | exact IH]. Qed.

Lemma row_get_sdss_in_gaia (r : Row) (c : string) :
  row_get (add_prefix "gaia_" r) ("sdss_" ++ c) = None.
Proof. induction r as [|[k v] r IH]; simpl; [reflexivity | exact IH]. Qed.

Lemma prefixed_NoDup (p : string) (cols : list string) :
  NoDup cols -> NoDup (map (String.append p) cols).
Proof.
  induction 1 as [|c cols Hc _ IH]; simpl; constructor; [|exact IH].
  intros Hin. apply in_map_iff in Hin as (c' & E & Hc'). apply Hc.
  assert (c' = c) as <-; [|exact Hc'].
  apply String.eqb_eq. rewrite <- (append_eqb p). now apply String.eqb_eq.
Qed.

(** In a row of the joined table the cell [gaia_c] is the cell [c] of the
    Gaia record and the cell [sdss_c] is the cell [c] of the SDSS record,
    also when both tables have a column [c]. *)
Lemma joined_cells (g_row s_row : Row) (c : string) :
  cell (add_prefix "gaia_" g_row ++ add_prefix "sdss_" s_row) ("gaia_" ++ c)
    = cell g_row c /\
  cell (add_prefix "gaia_" g_row ++ add_prefix "sdss_" s_row) ("sdss_" ++ c)
    = cell s_row c.
Proof.
  unfold cell. rewrite !row_get_app, !row_get_add_prefix, row_get_gaia_in_sdss,
                 row_get_sdss_in_gaia.
  split; [destruct (row_get g_row c); reflexivity | reflexivity].
Qed.

Lemma select_mask_In {A : Type} (l : list A) (mask : list bool) (x : A) :
  In x (select_mask l mask) -> In x l.
Proof.
  revert mask. induction l as [|y l IH]; intros [|b mask]; simpl; try tauto.
  destruct b; simpl; intros H; [destruct H as [H|H]; [now left|] |]; right; eauto.
Qed.

Lemma select_mask_map_length {A B : Type} (P : B -> bool) (l : list A) (c : list B) :
  List.length l = List.length c ->
  List.length (select_mask l (map P c)) = List.length (filter P c).
Proof.
  revert c. induction l as [|x l IH]; intros [|y c]; simpl; try discriminate;
    try reflexivity.
  intros [= H]. destruct (P y); simpl; now rewrite IH.
Qed.

Section Nearest.
Variable separation : SkyPoint -> SkyPoint -> float.

(** The nearest neighbour [match_to_catalog_sky] finds for one position. *)
Definition near_of (catalog : SkyCoord) (g : SkyPoint) : nat * float :=
  match catalog with
  | [] => (0, nan)
  | s0 :: rest => nearest_from separation g (0, separation g s0) 1 rest
  end.

Lemma match_to_catalog_sky_inv (self catalog : SkyCoord) (nn : list (nat * float)) :
  match_to_catalog_sky separation self catalog = Ok nn ->
  catalog <> [] /\ nn = map (near_of catalog) self.
Proof.
  unfold match_to_catalog_sky, near_of. destruct catalog; [discriminate|].
  intros [= <-]. split; [discriminate | reflexivity].
Qed.

Lemma near_of_position (catalog : SkyCoord) (g : SkyPoint) :
  catalog <> [] ->
  exists q, nth_error catalog (fst (near_of catalog g)) = Some q /\
            snd (near_of catalog g) = separation g q.
Proof.
  destruct catalog as [|s0 rest]; [congruence|]. intros _. unfold near_of.
  destruct (nearest_from_position separation g (0, separation g s0) 1 rest)
    as [E|(q & Hle & Hn & Hs)].
  - rewrite E. simpl. eauto.
  - exists q. split; [|exact Hs].
    replace (fst (nearest_from separation g (0, separation g s0) 1 rest))
      with (S (fst (nearest_from separation g (0, separation g s0) 1 rest) - 1)) by lia.
    exact Hn.
Qed.

Lemma near_of_least (catalog : SkyCoord) (g : SkyPoint) :
  (forall q, In q catalog -> is_nan (separation g q) = false) ->
  forall q, In q catalog ->
            (snd (near_of catalog g) <=? separation g q)%float = true.
Proof.
  destruct catalog as [|s0 rest]; [intros _ q []|]. intros Hnan q Hq. unfold near_of.
  destruct (nearest_from_least separation g (0, separation g s0) 1 rest) as (H0 & Hrest).
  - apply Hnan. now left.
  - intros q1 Hq1. apply Hnan. now right.
  - destruct Hq as [<-|Hq]; [exact H0 | now apply Hrest].
Qed.

(** [crossmatch], unfolded on a run that returns. *)
Lemma crossmatch_inv (fs : FileSystem) (gaia_csv sdss_csv : string)
      (radius_arcsec : float) (out : DataFrame) :
  crossmatch separation fs gaia_csv sdss_csv radius_arcsec = Ok out ->
  exists gaia sdss c_gaia c_sdss,
    fs gaia_csv = Some gaia /\ fs sdss_csv = Some sdss /\
    sky_coords gaia "ra" "dec" = Ok c_gaia /\
    sky_coords sdss "ra" "dec" = Ok c_sdss /\
    c_sdss <> [] /\
    columns out = map (String.append "gaia_") (columns gaia) ++
                  map (String.append "sdss_") (columns sdss) /\
    rows out =
      map (fun gs => add_prefix "gaia_" (fst gs) ++ add_prefix "sdss_" (snd gs))
          (combine
             (select_mask (rows gaia)
                (map (fun g => (snd (near_of c_sdss g) <=? radius_arcsec)%float) c_gaia))
             (map (fun j => nth j (rows sdss) [])
                  (select_mask (map (fun g => fst (near_of c_sdss g)) c_gaia)
                     (map (fun g => (snd (near_of c_sdss g) <=? radius_arcsec)%float)
                          c_gaia)))).
Proof.
  unfold crossmatch. intros H.
  apply bind_Ok_inv in H as (gaia & Hg & H).
  apply bind_Ok_inv in H as (sdss & Hs & H).
  apply bind_Ok_inv in H as (u1 & _ & H).
  apply bind_Ok_inv in H as (u2 & _ & H).
  apply bind_Ok_inv in H as (c_gaia & Hcg & H).
  apply bind_Ok_inv in H as (c_sdss & Hcs & H).
  apply bind_Ok_inv in H as (nn & Hnn & H).
  cbv zeta in H. injection H as <-. cbn [rows columns].
  unfold read_csv in Hg, Hs.
  destruct (fs gaia_csv) as [gaia'|]; [injection Hg as ->|discriminate].
  destruct (fs sdss_csv) as [sdss'|]; [injection Hs as ->|discriminate].
  apply match_to_catalog_sky_inv in Hnn as (Hne & ->).
  exists gaia, sdss, c_gaia, c_sdss. rewrite !map_map.
  repeat (split; [first [reflexivity | assumption]|]). reflexivity.
Qed.

(** The columns of the joined table are the Gaia columns prefixed [gaia_]
    followed by the SDSS columns prefixed [sdss_]: names stay distinct when
    they are distinct within each input, even if the two inputs share names.
    Every row holds, under the prefixed names, the cells of one Gaia record
    and of one SDSS record. *)
Theorem crossmatch_prefixed_columns (fs : FileSystem) (gaia_csv sdss_csv : string)
        (radius_arcsec : float) (gaia sdss out : DataFrame) :
  fs gaia_csv = Some gaia -> fs sdss_csv = Some sdss ->
  crossmatch separation fs gaia_csv sdss_csv radius_arcsec = Ok out ->
  columns out = map (String.append "gaia_") (columns gaia) ++
                map (String.append "sdss_") (columns sdss) /\
  (NoDup (columns gaia) -> NoDup (columns sdss) -> NoDup (columns out)) /\
  Forall (fun row =>
            exists g_row s_row,
              In g_row (rows gaia) /\ In s_row (rows sdss) /\
              forall c, cell row ("gaia_" ++ c) = cell g_row c /\
                        cell row ("sdss_" ++ c) = cell s_row c)
         (rows out).
Proof.
  intros Hg Hs H.
  destruct (crossmatch_inv fs gaia_csv sdss_csv radius_arcsec out H)
    as (gaia' & sdss' & c_gaia & c_sdss & Hg' & Hs' & _ & Hcs & Hne & Hcols & Hrows).
  rewrite Hg in Hg'. rewrite Hs in Hs'. injection Hg' as <-. injection Hs' as <-.
  split; [exact Hcols|]. split.
  - intros Ng Ns. rewrite Hcols. apply NoDup_app.
    + now apply prefixed_NoDup.
    + now apply prefixed_NoDup.
    + intros x Hx1 Hx2. apply in_map_iff in Hx1 as (a & <- & _).
      apply in_map_iff in Hx2 as (b & E & _). discriminate E.
  - rewrite Hrows. apply Forall_forall. intros row Hrow.
    apply in_map_iff in Hrow as ((g_row & s_row) & <- & Hin).
    exists g_row, s_row. cbn [fst snd].
    split; [apply in_combine_l in Hin; now apply select_mask_In in Hin|].
    split; [|intros c; apply joined_cells].
    apply in_combine_r, in_map_iff in Hin as (j & <- & Hj).
    apply select_mask_In, in_map_iff in Hj as (g & <- & _).
    destruct (near_of_position c_sdss g Hne) as (q & Hq & _).
    apply nth_In. rewrite (Forall2_length (sky_coords_rows _ _ _ _ Hcs)).
    apply nth_error_Some. intros E.
    pose proof (eq_trans (eq_sym E) Hq) as Habs. discriminate Habs.
Qed.

(** *** One row for every Gaia star the radius search would pair *)

(** The indices that a selection of [enumerate l] keeps are distinct. *)
Lemma selected_indices_NoDup {A : Type} (keep : nat * A -> bool) (l : list A) :
  NoDup (map fst (filter keep (enumerate l))).
Proof.
  assert (G : forall entries : list (nat * A),
             NoDup (map fst entries) -> NoDup (map fst (filter keep entries))).
  { induction entries as [|e entries IH]; simpl; intros H; [constructor|].
    apply NoDup_cons_iff in H as [Hx Hl].
    destruct (keep e); simpl; [|auto].
    constructor; [|auto]. intros Hin. apply Hx.
    apply in_map_iff in Hin as (y & E & Hy).
    apply filter_In in Hy as (Hy & _). apply in_map_iff. eauto. }
  apply G. unfold enumerate. rewrite CrossmatchFacts.map_fst_enumerate_from.
  apply seq_NoDup.
Qed.

Lemma filter_enumerate_length {A : Type} (W : A -> bool) (l : list A) (start : nat) :
  List.length (filter (fun ip => W (snd ip)) (combine (seq start (List.length l)) l)) =
  List.length (filter W l).
Proof.
  revert start. induction l as [|x l IH]; intros start; simpl; [reflexivity|].
  destruct (W x); simpl; now rewrite IH.
Qed.

(** Some position of the catalog is within [r] of [p]. *)
Definition any_within (catalog : SkyCoord) (r : float) (p : SkyPoint) : bool :=
  existsb (fun q => (separation p q <=? r)%float) catalog.

(** The distinct first-catalog positions of a radius search are the
    positions that have a neighbour within the radius. *)
Lemma unique_positions_count (coords1 coords2 : SkyCoord) (r : float) :
  CrossmatchFacts.unique_gaia_positions separation coords1 coords2 r =
  List.length (filter (any_within coords2 r) coords1).
Proof.
  unfold CrossmatchFacts.unique_gaia_positions, CrossmatchDebug.nunique.
  rewrite <- (filter_enumerate_length (any_within coords2 r) coords1 0).
  fold (enumerate coords1).
  rewrite <- (length_map fst
                (filter (fun ip => any_within coords2 r (snd ip)) (enumerate coords1))).
  assert (Hiff : forall i,
             In i (map (fun t : nat * nat * float => fst (fst t))
                       (CrossmatchDebug.search_around_sky separation coords1 coords2 r)) <->
             In i (map fst (filter (fun ip => any_within coords2 r (snd ip))
                                   (enumerate coords1)))).
  { intros i. rewrite !in_map_iff. split.
    - intros (((i' & j) & s) & <- & Ht).
      apply CrossmatchFacts.search_around_sky_spec in Ht
        as (p & q & Hp & Hq & -> & Hs).
      exists (i', p). split; [reflexivity|]. apply filter_In.
      split; [now apply CrossmatchFacts.In_enumerate|].
      apply existsb_exists. exists q. split; [eapply nth_error_In; exact Hq | exact Hs].
    - intros ((i' & p) & <- & Hf). apply filter_In in Hf as (Hin & Hw).
      apply CrossmatchFacts.In_enumerate in Hin.
      apply existsb_exists in Hw as (q & Hq & Hs).
      apply In_nth_error in Hq as (j & Hj).
      exists (i', j, separation p q). split; [reflexivity|].
      apply CrossmatchFacts.search_around_sky_spec. exists p, q. auto. }
  apply Nat.le_antisymm; apply NoDup_incl_length.
  - apply NoDup_nodup.
  - intros i Hi. apply Hiff. now apply nodup_In in Hi.
  - apply selected_indices_NoDup.
  - intros i Hi. apply nodup_In. now apply Hiff.
Qed.

(** When no separation between a Gaia and an SDSS position is NaN, the
    nearest-neighbour cross-match returns one row for every Gaia position
    that has some SDSS position within the radius: as many rows as there are
    distinct Gaia positions among the pairs a radius search finds. *)
Theorem crossmatch_row_count (fs : FileSystem) (gaia_csv sdss_csv : string)
        (radius_arcsec : float) (gaia sdss out : DataFrame) (c_gaia c_sdss : SkyCoord) :
  fs gaia_csv = Some gaia -> fs sdss_csv = Some sdss ->
  sky_coords gaia "ra" "dec" = Ok c_gaia ->
  sky_coords sdss "ra" "dec" = Ok c_sdss ->
  (forall g q, In g c_gaia -> In q c_sdss -> is_nan (separation g q) = false) ->
  crossmatch separation fs gaia_csv sdss_csv radius_arcsec = Ok out ->
  List.length (rows out) =
  CrossmatchFacts.unique_gaia_positions separation c_gaia c_sdss radius_arcsec.
Proof.
  intros Hg Hs Hcg Hcs Hnan H.
  destruct (crossmatch_inv fs gaia_csv sdss_csv radius_arcsec out H)
    as (gaia' & sdss' & c_gaia' & c_sdss' & Hg' & Hs' & Hcg' & Hcs' & Hne & _ & Hrows).
  rewrite Hg in Hg'. rewrite Hs in Hs'. injection Hg' as <-. injection Hs' as <-.
  rewrite Hcg in Hcg'. rewrite Hcs in Hcs'. injection Hcg' as <-. injection Hcs' as <-.
  rewrite Hrows, length_map, length_combine, length_map.
  pose proof (Forall2_length (sky_coords_rows _ _ _ _ Hcg)) as Hlen.
  rewrite (select_mask_map_length _ (rows gaia) c_gaia Hlen).
  rewrite <- (map_map (near_of c_sdss) fst).
  assert (Hidx : List.length
                   (select_mask (map fst (map (near_of c_sdss) c_gaia))
                      (map (fun g => (snd (near_of c_sdss g) <=? radius_arcsec)%float)
                           c_gaia)) =
                 List.length
                   (filter (fun g => (snd (near_of c_sdss g) <=? radius_arcsec)%float)
                           c_gaia)).
  { apply select_mask_map_length. now rewrite !length_map. }
  rewrite Hidx, Nat.min_id, unique_positions_count.
  f_equal. apply filter_ext_in. intros g Hgin. unfold any_within.
  destruct (near_of_position c_sdss g Hne) as (q & Hq & Hsq).
  destruct (existsb (fun q0 => (separation g q0 <=? radius_arcsec)%float) c_sdss) eqn:E.
  - apply existsb_exists in E as (q' & Hq' & Hle).
    exact (F64.leb_trans _ _ _ (near_of_least c_sdss g (fun x Hx => Hnan g x Hgin Hx) q' Hq')
                         Hle).
  - destruct (snd (near_of c_sdss g) <=? radius_arcsec)%float eqn:E'; [|reflexivity].
    assert (existsb (fun q0 => (separation g q0 <=? radius_arcsec)%float) c_sdss = true);
      [|congruence].
    apply existsb_exists. exists q. split; [eapply nth_error_In; exact Hq|].
    now rewrite <- Hsq.
Qed.

(** *** When the cross-match returns *)




End Nearest.

Lemma crossmatch_prefixed_columns_witness :
  exists out,
    crossmatch equatorial_separation fs_nearest
      "data/raw/gaia_sample.csv" "data/raw/sdss_stars.csv" 1.0%float = Ok out /\
    columns out = ["gaia_ra"; "gaia_dec"; "sdss_ra"; "sdss_dec"].
Proof.
  eexists. split; [vm_compute; reflexivity|].
  apply (crossmatch_prefixed_columns equatorial_separation fs_nearest
           "data/raw/gaia_sample.csv" "data/raw/sdss_stars.csv" 1.0%float
           (CrossmatchFacts.positions_table [(180.0, 0.0); (190.0, 0.0)]%float)
           (CrossmatchFacts.positions_table [(180.0004, 0.0); (180.0001, 0.0)]%float));
    vm_compute; reflexivity.
Defined.

Lemma crossmatch_row_count_witness :
  exists out,
    crossmatch equatorial_separation fs_nearest
      "data/raw/gaia_sample.csv" "data/raw/sdss_stars.csv" 1.0%float = Ok out /\
    List.length (rows out) =
    CrossmatchFacts.unique_gaia_positions equatorial_separation
      [(180.0, 0.0); (190.0, 0.0)]%float [(180.0004, 0.0); (180.0001, 0.0)]%float
      1.0%float.
Proof.
  eexists. split; [vm_compute; reflexivity|].
  apply (crossmatch_row_count equatorial_separation fs_nearest
           "data/raw/gaia_sample.csv" "data/raw/sdss_stars.csv" 1.0%float
           (CrossmatchFacts.positions_table [(180.0, 0.0); (190.0, 0.0)]%float)
           (CrossmatchFacts.positions_table [(180.0004, 0.0); (180.0001, 0.0)]%float));
    try (vm_compute; reflexivity).
  intros g q Hg Hq. simpl in Hg, Hq.
  destruct Hg as [<-|[<-|[]]]; destruct Hq as [<-|[<-|[]]]; reflexivity.
Defined.


End NearestMore.

(* ================================================================== *)
(** ** The toy pipeline: [src/process_data.py], [src/simulate_evolution.py]
       and the labels of [src/classifier_rf.py] and [src/train_model.py] *)

Module ToyPipeline.
Local Open Scope float_scope.

(** [classify_simple] of [process_data.py]. *)
Definition classify_simple (mass : float) : string :=
  if mass <? 0.5 then "low_mass"%string
  else if mass <? 1.5 then "sun_like"%string
  else if mass <? 8 then "intermediate"%string
  else "high_mass"%string.

(** The dict [end_prob] of [load_and_process] returns. *)
Record EndProb : Type := mkEndProb { wd : float; ns : float; bh : float }.

Definition end_prob (m : float) : EndProb :=
  if m <? 8 then mkEndProb 0.99 0.01 0.0
  else if m <? 20 then mkEndProb 0.02 0.7 0.28
  else mkEndProb 0.0 0.1 0.9.

(** [label_for], the same in [train_rf] and in [train_model.prepare_data]. *)
Definition label_for (m : float) : string :=
  if m <? 8 then "white_dwarf"%string
  else if m <? 20 then "neutron_star"%string
  else "black_hole"%string.

(** Python's [max(a, b)]: [b] when [b > a], else [a]. *)
Definition py_max (a b : float) : float := if a <? b then b else a.

(** A number of a timeline: the literals 10000, 15000 and 8000 are [int]s,
    the products are [float]s. *)
Inductive number : Type :=
| NInt (z : Z)
| NFloat (f : float).

(** One stage of a timeline: a dict with the keys [stage], [mass], [teff]
    and sometimes [notes]. *)
Record Stage : Type := mkStage {
  stage : string;
  mass : float;
  teff : number;
  notes : option string
}.

(** A row of [processed_stars.csv] as [simulate_one] reads it: an integer
    [source_id] and float [mass_solar] and [teff]. *)
Record StarRow : Type := mkStarRow {
  source_id : Z;
  mass_solar : float;
  row_teff : float
}.

Record Simulation : Type := mkSimulation {
  sim_source_id : Z;
  timeline : list Stage;
  end_state : string
}.

Definition simulate_one (row : StarRow) : Simulation :=
  let m := mass_solar row in
  let t := row_teff row in
  let timeline :=
    [mkStage "main_sequence" m (NFloat t) (Some "hydrogen burning"%string)] in
  if m <? 0.8 then
    mkSimulation (source_id row)
      (timeline ++ [mkStage "red_giant" (m * 0.98) (NFloat (t * 0.6)) None;
                    mkStage "white_dwarf" (py_max 0.5 (m * 0.6)) (NInt 10000) None])
      "white_dwarf"
  else if m <? 8 then
    mkSimulation (source_id row)
      (timeline ++ [mkStage "red_giant" (m * 0.95) (NFloat (t * 0.5)) None;
                    mkStage "planetary_nebula" (m * 0.6) (NInt 15000) None;
                    mkStage "white_dwarf" (0.6 * m) (NInt 8000) None])
      "white_dwarf"
  else
    let timeline :=
      timeline ++ [mkStage "supergiant" (m * 0.9) (NFloat (t * 0.8)) None] in
    if 20 <=? m then
      mkSimulation (source_id row)
        (timeline ++ [mkStage "core_collapse" (m * 0.5) (NFloat 1e6)
                              (Some "likely black hole"%string)])
        "black_hole"
    else
      mkSimulation (source_id row)
        (timeline ++ [mkStage "core_collapse" (m * 0.7) (NFloat 1e6)
                              (Some "likely neutron star"%string)])
        "neutron_star".

(** *** Properties *)

(** [|wd + ns + bh - 1.0| <= 1e-9] *)
Definition end_prob_sums_to_one (p : EndProb) : bool :=
  abs (wd p + ns p + bh p - 1.0) <=? 1e-9.

(** The probabilities of [end_prob] sum to one, and the label that the
    training scripts give a mass names its likeliest endpoint. *)
Theorem end_prob_label (m : float) :
  end_prob_sums_to_one (end_prob m) = true /\
  ((label_for m = "white_dwarf"%string /\
    (ns (end_prob m) <? wd (end_prob m)) = true /\
    (bh (end_prob m) <? wd (end_prob m)) = true) \/
   (label_for m = "neutron_star"%string /\
    (wd (end_prob m) <? ns (end_prob m)) = true /\
    (bh (end_prob m) <? ns (end_prob m)) = true) \/
   (label_for m = "black_hole"%string /\
    (wd (end_prob m) <? bh (end_prob m)) = true /\
    (ns (end_prob m) <? bh (end_prob m)) = true)).
Proof.
  unfold label_for, end_prob.
  destruct (m <? 8); [split; [reflexivity | left; repeat split; reflexivity]|].
  destruct (m <? 20); split; try reflexivity;
    right; [left | right]; repeat split; reflexivity.
Qed.

(** For a mass that is not NaN the end state of the simulated timeline is
    the label the training scripts give that mass.  The timeline starts with
    the main sequence at the star's own mass and temperature, and ends in the
    [white_dwarf] stage exactly when the end state is a white dwarf,
    otherwise in [core_collapse]. *)
Theorem simulate_one_end_state (row : StarRow) :
  is_nan (mass_solar row) = false ->
  let sim := simulate_one row in
  end_state sim = label_for (mass_solar row) /\
  sim_source_id sim = source_id row /\
  hd_error (timeline sim) =
    Some (mkStage "main_sequence" (mass_solar row) (NFloat (row_teff row))
                  (Some "hydrogen burning"%string)) /\
  (exists last_stage,
      List.last (map Some (timeline sim)) None = Some last_stage /\
      stage last_stage =
        (if String.eqb (end_state sim) "white_dwarf" then "white_dwarf"
         else "core_collapse")%string) /\
  (List.length (timeline sim) = 3 \/ List.length (timeline sim) = 4)%nat.
Proof.
  intros Hnan sim. subst sim. unfold simulate_one, label_for.
  destruct (mass_solar row <? 0.8) eqn:E1.
  - rewrite (DeriverMore.below_mono _ 0.8 8 eq_refl E1). cbn.
    repeat split; eauto.
  - destruct (mass_solar row <? 8) eqn:E2.
    + cbn. repeat split; eauto.
    + destruct (mass_solar row <? 20) eqn:E3.
      * destruct (20 <=? mass_solar row) eqn:E4.
        { pose proof (F64.leb_ltb_false _ _ E4) as C. congruence. }
        cbn. repeat split; eauto.
      * rewrite (F64.ltb_false_leb _ 20 Hnan eq_refl E3). cbn. repeat split; eauto.
Qed.

Lemma simulate_one_end_state_witness :
  end_state (simulate_one (mkStarRow 7 25.0 30000)) = "black_hole"%string /\
  end_state (simulate_one (mkStarRow 8 0.7 3500)) = "white_dwarf"%string.
Proof.
  split.
  - apply (simulate_one_end_state (mkStarRow 7 25.0 30000)). reflexivity.
  - apply (simulate_one_end_state (mkStarRow 8 0.7 3500)). reflexivity.
Defined.

End ToyPipeline.
